(** * InstaLink: the short-identifier protocol of the upload and retrieval routes

    A shallow embedding of the Express application of [backend.js] and of the
    three other revisions of the same file kept in the repository (local-disk
    storage, Cloudinary with a signed attachment redirect, Cloudinary with a
    proxied download).  JavaScript strings are sequences of UTF-16 code units,
    the Mongo collection is a list of documents guarded by a unique index on
    [shortId], the blob store is a finite map from the storage-assigned name
    to the stored bytes, and the outcome of every call that leaves the process
    (nanoid, Cloudinary, MongoDB faults, axios) is read from an explicit
    record, so that a handler is a function of the request, the world and
    those outcomes. *)

From Stdlib Require Import NArith List Bool String Ascii Lia.
From Equations Require Import Equations.
From stdpp Require Import base option gmap.
Import ListNotations.

Local Open Scope N_scope.

(** ** JavaScript strings *)

Module Js.

(** A string value is its sequence of UTF-16 code units. *)
Definition jsstring : Type := list N.

(** An ASCII literal of the source as a string value. *)
Definition lit (s : string) : jsstring :=
  List.map N_of_ascii (list_ascii_of_string s).

(** ECMAScript [WhiteSpace]: TAB, VT, FF, SP, NBSP, ZWNBSP and the other
    code points of category Zs. *)
Definition is_white_space (c : N) : bool :=
  (c =? 9) || (c =? 11) || (c =? 12) || (c =? 32) || (c =? 160)
  || (c =? 5760) || ((8192 <=? c) && (c <=? 8202))
  || (c =? 8239) || (c =? 8287) || (c =? 12288) || (c =? 65279).

(** ECMAScript [LineTerminator]: LF, CR, LS, PS. *)
Definition is_line_terminator (c : N) : bool :=
  (c =? 10) || (c =? 13) || (c =? 8232) || (c =? 8233).

(** What [String.prototype.trim] strips and what the class [\s] matches. *)
Definition is_space (c : N) : bool := is_white_space c || is_line_terminator c.

Fixpoint drop_while (p : N -> bool) (s : jsstring) : jsstring :=
  match s with
  | [] => []
  | c :: t => if p c then drop_while p t else s
  end.

(** [s.trim()] *)
Definition trim_start (s : jsstring) : jsstring := drop_while is_space s.
Definition trim_end (s : jsstring) : jsstring := rev (drop_while is_space (rev s)).
Definition trim (s : jsstring) : jsstring := trim_end (trim_start s).

(** [s.replace(/C+/g, rep)] for a character class C: scanning from the left,
    a position where a character of the class stands starts a match, the
    match is greedy (it takes the whole run), the replacement is emitted and
    the scan resumes after the match; any other character is copied. *)
Equations? replace_plus (cls : N -> bool) (rep s : jsstring) : jsstring
  by wf (length s) lt :=
  replace_plus cls rep [] := [];
  replace_plus cls rep (c :: t) :=
    if cls c then rep ++ replace_plus cls rep (drop_while cls t)
    else c :: replace_plus cls rep t.
Proof.
  - clear replace_plus.
    assert (H : (length (drop_while cls t) <= length t)%nat).
    { induction t as [|d t IH]; simpl; [lia|]. destruct (cls d); simpl; lia. }
    simpl. lia.
  - simpl. lia.
Qed.

(** [s.replace(/C/g, rep)] for a character class C: every single character
    of the class is a match. *)
Fixpoint replace_each (cls : N -> bool) (rep s : jsstring) : jsstring :=
  match s with
  | [] => []
  | c :: t => if cls c then rep ++ replace_each cls rep t
              else c :: replace_each cls rep t
  end.

(** [s.includes(needle)] *)
Fixpoint starts_with (needle s : jsstring) : bool :=
  match needle, s with
  | [], _ => true
  | _ :: _, [] => false
  | a :: n', b :: s' => (a =? b) && starts_with n' s'
  end.

Fixpoint includes (s needle : jsstring) : bool :=
  starts_with needle s ||
  match s with
  | [] => false
  | _ :: t => includes t needle
  end.

(** Truthiness of a string: only the empty string is falsy. *)
Definition truthy (s : jsstring) : bool :=
  match s with [] => false | _ :: _ => true end.

(** Truthiness of a possibly [undefined] string. *)
Definition truthy_opt (o : option jsstring) : bool :=
  match o with Some s => truthy s | None => false end.

(** [a === b] on strings *)
Fixpoint eqb (a b : jsstring) : bool :=
  match a, b with
  | [], [] => true
  | x :: a', y :: b' => (x =? y) && eqb a' b'
  | _, _ => false
  end.

(** [a || b] where [a] may be [undefined] *)
Definition or_else (a : option jsstring) (b : jsstring) : jsstring :=
  match a with
  | Some s => if truthy s then s else b
  | None => b
  end.

End Js.

Export Js(jsstring).

(** ** Sanitization of a custom name *)

Definition hyphen : N := 45.
Definition underscore : N := 95.

(** The class [[a-zA-Z0-9-_]]: after the range [0-9] the hyphen is a literal. *)
Definition name_char (c : N) : bool :=
  ((97 <=? c) && (c <=? 122)) || ((65 <=? c) && (c <=? 90))
  || ((48 <=? c) && (c <=? 57)) || (c =? hyphen) || (c =? underscore).

(** [customName.trim().replace(/\s+/g, '-').replace(/[^a-zA-Z0-9-_]/g, '')] *)
Definition sanitize (customName : jsstring) : jsstring :=
  Js.replace_each (fun c => negb (name_char c)) []
    (Js.replace_plus Js.is_space [hyphen] (Js.trim customName)).


(** ** Revisions, documents and requests *)

(** The four revisions of the server kept in the repository. *)
Inductive Revision : Type :=
| LocalDisk        (* multer.diskStorage, res.sendFile: unnamed part_000 *)
| CloudRedirect    (* Cloudinary, res.redirect(file.fileUrl): backend.js *)
| CloudAttachment  (* Cloudinary, resourceType and a 302 to cloudinary.url: unnamed part_001 *)
| CloudProxy.      (* Cloudinary, axios stream piped to the client: unnamed part_002 *)

Definition cloud (rev : Revision) : bool :=
  match rev with LocalDisk => false | _ => true end.

(** A document of the [File] model.  [fileUrl] is the field [filePath] of the
    local-disk schema; a schema without [mimeType], [cloudinaryId] or
    [resourceType] leaves the field [undefined]. *)
Record FileDoc : Type := {
  shortId : jsstring;
  originalName : jsstring;
  fileUrl : jsstring;
  mimeType : option jsstring;
  cloudinaryId : option jsstring;
  resourceType : option jsstring;
  createdAt : N
}.

(** A file part of the multipart body, as it comes over the wire. *)
Record FilePart : Type := {
  part_originalname : jsstring;
  part_mimetype : jsstring;
  part_bytes : list N
}.

(** An entry of [req.files], as the storage engine leaves it. *)
Record MulterFile : Type := {
  originalname : jsstring;
  mimetype : jsstring;
  path : jsstring;
  filename : jsstring
}.

(** POST /upload as received: its file parts, the [customName] text field
    when the form has one, and what [req.protocol] and [req.get('host')]
    read. *)
Record UploadRequest : Type := {
  parts : list FilePart;
  customName : option jsstring;
  protocol : jsstring;
  host : jsstring
}.

(** [process.env] *)
Record Config : Type := {
  RENDER_EXTERNAL_URL : option jsstring;
  env_PORT : option jsstring
}.

(** [const PORT = process.env.PORT || 3000], as a template literal prints it. *)
Definition PORT (cfg : Config) : jsstring :=
  Js.or_else (env_PORT cfg) (Js.lit "3000").

(** ** Responses *)

Inductive Body : Type :=
| JsonError (error : string)          (* res.json({ error }) *)
| JsonLink (link : jsstring)          (* res.json({ link }) *)
| Html (page : string)                (* res.send(page) *)
| Redirect (url : jsstring)           (* res.redirect(url) *)
| SendFile (file : jsstring)          (* res.sendFile(path.resolve(file)) *)
| Pipe (stream : list N).             (* response.data.pipe(res) *)

Record Response : Type := {
  status : N;
  headers : list (string * jsstring);   (* those set with res.setHeader *)
  body : Body
}.

Definition respond (code : N) (b : Body) : Response :=
  {| status := code; headers := []; body := b |}.

Definition no_file : Response := respond 400 (JsonError "No file was uploaded.").
Definition invalid_name : Response :=
  respond 400 (JsonError "Custom name contains invalid characters.").
Definition name_taken : Response :=
  respond 409 (JsonError "This custom link name is already taken.").

(** What the upload route answers when its [try] block throws: the [catch]
    of the route, or the global error handler in the revision that calls
    [next(error)]. *)
Definition upload_error (rev : Revision) : Response :=
  match rev with
  | CloudAttachment => respond 500 (JsonError "An unexpected server error occurred.")
  | _ => respond 500 (JsonError "Server error while creating link.")
  end.

Definition not_found (rev : Revision) : Response :=
  match rev with
  | CloudAttachment => respond 404 (Html "<h1>File not found</h1>")
  | _ => respond 404 (Html
      "<h1>File not found</h1><p>The link may be incorrect or the file has been removed.</p>")
  end.

Definition gateway_timeout : Response :=
  respond 504 (Html
    "<h1>Gateway Timeout</h1><p>The server took too long to retrieve the file from storage.</p>").
Definition not_found_on_storage : Response :=
  respond 404 (Html
    "<h1>File not found on storage</h1><p>The file may have been deleted.</p>").

(** ** The world and the calls that leave the process *)

Inductive Event : Type :=
| BlobWrite (name : jsstring)              (* the storage engine stored a file *)
| BlobDestroy (name : jsstring)            (* cloudinary.uploader.destroy *)
| BlobRead (file : jsstring)               (* res.sendFile *)
| Fetch (url : jsstring) (timeout : N)     (* axios GET, timeout in ms *)
| FindOne (id : jsstring)                  (* File.findOne({ shortId }) *)
| Save (id : jsstring)                     (* newFile.save() *)
| LogError (what : string).                (* console.error *)

(** The collection, the blobs by storage-assigned name, and the calls made
    so far, oldest first. *)
Record World : Type := {
  db : list FileDoc;
  blobs : gmap jsstring (list N);
  trace : list Event
}.

Definition emit (e : Event) (w : World) : World :=
  {| db := db w; blobs := blobs w; trace := trace w ++ [e] |}.
Definition with_db (d : list FileDoc) (w : World) : World :=
  {| db := d; blobs := blobs w; trace := trace w |}.
Definition with_blobs (b : gmap jsstring (list N)) (w : World) : World :=
  {| db := db w; blobs := b; trace := trace w |}.

Inductive DestroyOutcome : Type :=
| Destroyed          (* resolves, the asset is gone *)
| DestroyNotFound    (* resolves with result 'not found', nothing removed *)
| DestroyRejects.    (* the promise rejects *)

Inductive FetchOutcome : Type :=
| FetchStream (bytes : list N)
| FetchError (code : option jsstring) (response_status : option N).

(** What the outside answers during one request. *)
Record Outcomes : Type := {
  nanoid : nat -> jsstring;                      (* nanoid(size) *)
  assigned : nat -> jsstring * jsstring;         (* filename and path of the k-th stored file *)
  find_rejects : bool;                           (* File.findOne rejects *)
  save_rejects : bool;                           (* save rejects before reaching the index *)
  concurrent : list FileDoc;                     (* saved by other requests before this one saves *)
  destroy_outcome : DestroyOutcome;
  cloudinary_url : option jsstring -> option jsstring -> jsstring;
                                                 (* cloudinary.url(id, { resource_type, flags: ['attachment'] }) *)
  fetch_outcome : FetchOutcome;
  sendFile_status : N;                           (* the status res.sendFile answers with *)
  clock : N                                      (* Date.now() *)
}.

(** What a [try] block can catch. *)
Inductive Exn : Type :=
| MongoDuplicateKey                  (* E11000: the unique index on shortId *)
| MongoFault
| CloudinaryFault
| InvalidHeaderValue                 (* res.setHeader(name, undefined) *)
| InvalidHeaderChar                  (* res.setHeader(name, value with a refused character) *)
| AxiosError (code : option jsstring) (response_status : option N).

Definition error_code (e : Exn) : option jsstring :=
  match e with
  | AxiosError c _ => c
  | InvalidHeaderValue => Some (Js.lit "ERR_HTTP_INVALID_HEADER_VALUE")
  | InvalidHeaderChar => Some (Js.lit "ERR_INVALID_CHAR")
  | _ => None
  end.
Definition error_response_status (e : Exn) : option N :=
  match e with AxiosError _ s => s | _ => None end.

(** ** Awaited calls: state and exceptions *)

Definition M (A : Type) : Type := World -> (Exn + A) * World.

Definition ret {A} (a : A) : M A := fun w => (inr a, w).
Definition bind {A B} (c : M A) (k : A -> M B) : M B := fun w =>
  match c w with
  | (inr a, w') => k a w'
  | (inl e, w') => (inl e, w')
  end.

Declare Scope await_scope.
Delimit Scope await_scope with await.
Notation "x <- c ;; k" := (bind c (fun x => k))
  (at level 100, c at next level, right associativity) : await_scope.
Notation "c ;; k" := (bind c (fun _ => k))
  (at level 100, right associativity) : await_scope.
Local Open Scope await_scope.

(** [try { body } catch (error) { handler(error) }] *)
Definition try_catch {A} (body : M A) (handler : Exn -> World -> A * World)
  : World -> A * World := fun w =>
  match body w with
  | (inr a, w') => (a, w')
  | (inl e, w') => handler e w'
  end.

Definition has_shortId (id : jsstring) (d : FileDoc) : bool := Js.eqb (shortId d) id.

(** [await File.findOne({ shortId: id })] *)
Definition findOne (o : Outcomes) (id : jsstring) : M (option FileDoc) := fun w =>
  let w := emit (FindOne id) w in
  if find_rejects o then (inl MongoFault, w)
  else (inr (List.find (has_shortId id) (db w)), w).

(** An insert under the unique index on [shortId]. *)
Definition insert_unique (d : FileDoc) (docs : list FileDoc) : option (list FileDoc) :=
  if existsb (has_shortId (shortId d)) docs then None else Some (docs ++ [d]).

(** The inserts of the other requests that reach the collection first; the
    index refuses theirs like anyone's. *)
Definition commit_others (others docs : list FileDoc) : list FileDoc :=
  fold_left (fun acc d => default acc (insert_unique d acc)) others docs.

(** [await newFile.save()] *)
Definition save (o : Outcomes) (d : FileDoc) : M unit := fun w =>
  let w := emit (Save (shortId d)) (with_db (commit_others (concurrent o) (db w)) w) in
  if save_rejects o then (inl MongoFault, w)
  else match insert_unique d (db w) with
       | Some docs => (inr tt, with_db docs w)
       | None => (inl MongoDuplicateKey, w)
       end.

(** [await cloudinary.uploader.destroy(public_id)] *)
Definition destroy (o : Outcomes) (public_id : jsstring) : M unit := fun w =>
  let w := emit (BlobDestroy public_id) w in
  match destroy_outcome o with
  | Destroyed => (inr tt, with_blobs (delete public_id (blobs w)) w)
  | DestroyNotFound => (inr tt, w)
  | DestroyRejects => (inl CloudinaryFault, w)
  end.

(** [await axios({ method: 'GET', url, responseType: 'stream', timeout })] *)
Definition axios_get (o : Outcomes) (url : jsstring) (timeout : N) : M (list N) := fun w =>
  let w := emit (Fetch url timeout) w in
  match fetch_outcome o with
  | FetchStream bytes => (inr bytes, w)
  | FetchError code st => (inl (AxiosError code st), w)
  end.

(** ** The upload middleware: [upload.any()] *)

(** The storage engine handles one file part: the bytes are stored under the
    name the engine assigns (a public id in the folder [instalink_uploads]
    with Cloudinary, a time stamp and a random number with the extension of
    the original name on disk), and the entry of [req.files] carries that
    name and the path (a URL with Cloudinary, [uploads/<name>] on disk). *)
Definition handle_file (o : Outcomes) (k : nat) (p : FilePart) (w : World)
  : MulterFile * World :=
  let '(name, where_) := assigned o k in
  ({| originalname := part_originalname p; mimetype := part_mimetype p;
      path := where_; filename := name |},
   emit (BlobWrite name) (with_blobs (<[name := part_bytes p]> (blobs w)) w)).

(** Every file part of the body is stored, in order.  The storage engine is
    taken to accept every part: an upload that the engine fails never
    reaches the route callback (multer passes the error on and Express
    answers it), and is outside this model. *)
Fixpoint upload_any (o : Outcomes) (k : nat) (ps : list FilePart) (w : World)
  : list MulterFile * World :=
  match ps with
  | [] => ([], w)
  | p :: ps' =>
      let '(f, w1) := handle_file o k p w in
      let '(fs, w2) := upload_any o (S k) ps' w1 in
      (f :: fs, w2)
  end.

(** ** POST /upload *)

Definition new_File (rev : Revision) (o : Outcomes) (id : jsstring) (file : MulterFile)
  : FileDoc :=
  match rev with
  | LocalDisk =>
      {| shortId := id; originalName := originalname file; fileUrl := path file;
         mimeType := Some (mimetype file); cloudinaryId := None;
         resourceType := None; createdAt := clock o |}
  | CloudRedirect | CloudProxy =>
      {| shortId := id; originalName := originalname file; fileUrl := path file;
         mimeType := Some (mimetype file); cloudinaryId := Some (filename file);
         resourceType := None; createdAt := clock o |}
  | CloudAttachment =>
      let resourceType :=
        if Js.includes (path file) (Js.lit "/raw/upload") then Js.lit "raw"
        else if Js.includes (path file) (Js.lit "/video/upload") then Js.lit "video"
        else Js.lit "image" in
      {| shortId := id; originalName := originalname file; fileUrl := path file;
         mimeType := None; cloudinaryId := Some (filename file);
         resourceType := Some resourceType; createdAt := clock o |}
  end.

(** The base of the shareable link. *)
Definition link_base (rev : Revision) (cfg : Config) (req : UploadRequest) : jsstring :=
  match rev with
  | LocalDisk => protocol req ++ Js.lit "://" ++ host req
  | _ => Js.or_else (RENDER_EXTERNAL_URL cfg) (Js.lit "http://localhost:" ++ PORT cfg)
  end.

Definition shareableLink (rev : Revision) (cfg : Config) (req : UploadRequest)
  (id : jsstring) : jsstring :=
  link_base rev cfg req ++ Js.lit "/file/" ++ id.

(** The [if (customName) { ... } else { ... }] of the route: a response when
    the route returns from inside it, the chosen [shortId] otherwise. *)
Definition choose_shortId (rev : Revision) (o : Outcomes) (file : MulterFile)
  (customName : option jsstring) : M (Response + jsstring) :=
  match customName with
  | Some name =>
      if Js.truthy name then
        let sanitizedName := sanitize name in
        if negb (Js.truthy sanitizedName) then ret (inl invalid_name)
        else
          existingFile <- findOne o sanitizedName ;;
          match existingFile with
          | Some _ =>
              (if cloud rev then destroy o (filename file) else ret tt) ;;
              ret (inl name_taken)
          | None => ret (inr sanitizedName)
          end
      else ret (inr (nanoid o 8))
  | None => ret (inr (nanoid o 8))
  end.

(** The body of the [try] block, for the first file of [req.files]. *)
Definition upload_try (rev : Revision) (cfg : Config) (o : Outcomes)
  (req : UploadRequest) (file : MulterFile) : M Response :=
  chosen <- choose_shortId rev o file (customName req) ;;
  match chosen with
  | inl early => ret early
  | inr id =>
      let newFile := new_File rev o id file in
      save o newFile ;;
      ret (respond 200 (JsonLink (shareableLink rev cfg req (shortId newFile))))
  end.

(** What the [catch] of the route logs (the global error handler, in the
    revision that calls [next(error)]). *)
Definition upload_log (rev : Revision) : string :=
  match rev with
  | LocalDisk => "Error saving file to DB"
  | CloudAttachment => "An unhandled error occurred"
  | _ => "Error during upload"
  end.

Definition upload_catch (rev : Revision) (e : Exn) (w : World) : Response * World :=
  (upload_error rev, emit (LogError (upload_log rev)) w).

(** The route callback, given [req.files] as the middleware left it. *)
Definition upload_handler (rev : Revision) (cfg : Config) (o : Outcomes)
  (req : UploadRequest) (files : list MulterFile) : World -> Response * World :=
  match files with
  | [] => fun w => (no_file, w)
  | file :: _ => try_catch (upload_try rev cfg o req file) (upload_catch rev)
  end.

(** [app.post('/upload', upload.any(), async (req, res) => ...)] *)
Definition post_upload (rev : Revision) (cfg : Config) (o : Outcomes)
  (req : UploadRequest) (w : World) : Response * World :=
  let '(files, w1) := upload_any o 0 (parts req) w in
  upload_handler rev cfg o req files w1.

(** ** GET /file/:shortId *)

Definition double_quote : N := 34.

(** [`attachment; filename="${file.originalName}"`] *)
Definition content_disposition (name : jsstring) : jsstring :=
  Js.lit "attachment; filename=" ++ [double_quote] ++ name ++ [double_quote].

Definition octet_stream : jsstring := Js.lit "application/octet-stream".

(** The 15-second timeout of the proxied fetch, in milliseconds. *)
Definition proxy_timeout : N := 15000.

(** [res], as far as the route writes to it before it answers: the headers
    set with [res.setHeader], oldest first.  The [try] block and its [catch]
    share it: a header set before an exception is thrown is still set when
    the [catch] answers. *)
Definition Res : Type := list (string * jsstring).

(** A step of the route: an awaited call or a call on [res]. *)
Definition R (A : Type) : Type := Res -> World -> (Exn + A) * Res * World.

Definition r_bind {A B} (c : R A) (k : A -> R B) : R B := fun res w =>
  match c res w with
  | (inr a, res', w') => k a res' w'
  | (inl e, res', w') => (inl e, res', w')
  end.

(** An awaited call leaves [res] alone. *)
Definition await {A} (c : M A) : R A := fun res w =>
  let '(r, w') := c w in (r, res, w').

Declare Scope res_scope.
Delimit Scope res_scope with res.
Notation "x <- c ;; k" := (r_bind c (fun x => k))
  (at level 100, c at next level, right associativity) : res_scope.
Notation "c ;; k" := (r_bind c (fun _ => k))
  (at level 100, right associativity) : res_scope.

(** The characters Node accepts in a header value: TAB, 0x20 to 0x7E and
    0x80 to 0xFF. *)
Definition header_char (c : N) : bool :=
  (c =? 9) || ((32 <=? c) && (c <=? 126)) || ((128 <=? c) && (c <=? 255)).

Definition valid_header (value : jsstring) : bool := forallb header_char value.

(** [res.setHeader(name, value)]: it throws on an [undefined] value and on a
    value that holds a refused character, and leaves [res] as it was;
    otherwise the header replaces the one of that name, if any. *)
Definition setHeader (name : string) (value : option jsstring) : R unit := fun res w =>
  match value with
  | None => (inl InvalidHeaderValue, res, w)
  | Some v =>
      if valid_header v
      then (inr tt,
            List.filter (fun h => negb (String.eqb (fst h) name)) res ++ [(name, v)], w)
      else (inl InvalidHeaderChar, res, w)
  end.

(** [res.status(code).send(page)], [res.redirect(url)] and
    [stream.pipe(res)]: the answer goes out with the headers [res] holds.
    (Express adds headers of its own, the charset and the like, which the
    model leaves out.) *)
Definition send (r : Response) : R Response := fun res w =>
  (inr {| status := status r; headers := res; body := body r |}, res, w).

(** [res.sendFile(path.resolve(file))]: the file is read and [res.sendFile]
    picks the status (200 for a file that is there and a plain request; 404
    when it is missing; 304, 206, 412 or 416 for conditional and range
    requests). *)
Definition sendFile (o : Outcomes) (file : jsstring) : R Response := fun res w =>
  (inr {| status := sendFile_status o; headers := res; body := SendFile file |},
   res, emit (BlobRead file) w).

(** What the route does with the document it found.  In the proxied
    revision the model stops where the stream is piped: a stream that breaks
    after the headers went out only ends the connection. *)
Definition serve (rev : Revision) (o : Outcomes) (file : FileDoc) : R Response :=
  (match rev with
   | LocalDisk =>
       setHeader "Content-Type" (mimeType file) ;;
       sendFile o (fileUrl file)
   | CloudRedirect => send (respond 302 (Redirect (fileUrl file)))
   | CloudAttachment =>
       send (respond 302
               (Redirect (cloudinary_url o (cloudinaryId file) (resourceType file))))
   | CloudProxy =>
       stream <- await (axios_get o (fileUrl file) proxy_timeout) ;;
       setHeader "Content-Type" (Some (Js.or_else (mimeType file) octet_stream)) ;;
       setHeader "Content-Disposition"
         (Some (content_disposition (originalName file))) ;;
       send (respond 200 (Pipe stream))
   end)%res.

Definition get_try (rev : Revision) (o : Outcomes) (id : jsstring) : R Response :=
  (file <- await (findOne o id) ;;
   match file with
   | None => send (not_found rev)
   | Some file => serve rev o file
   end)%res.

Definition ECONNABORTED : jsstring := Js.lit "ECONNABORTED".

(** The [catch] of the route (the global error handler, in the revision
    that calls [next(error)]): what it answers goes out with the headers
    [res] already holds. *)
Definition get_catch (rev : Revision) (error : Exn) (res : Res) (w : World)
  : Response * World :=
  let answer (r : Response) : Response :=
    {| status := status r; headers := res; body := body r |} in
  match rev with
  | CloudProxy =>
      (answer
         (if match error_code error with
             | Some code => Js.eqb code ECONNABORTED
             | None => false
             end
          then gateway_timeout
          else if match error_response_status error with
                  | Some st => st =? 404
                  | None => false
                  end
          then not_found_on_storage
          else respond 500 (Html "<h1>Server error while retrieving file</h1>")),
       emit (LogError "Error proxying file") w)
  | CloudAttachment =>
      (answer (respond 500 (JsonError "An unexpected server error occurred.")),
       emit (LogError "An unhandled error occurred") w)
  | _ => (answer (respond 500 (Html "<h1>Server error</h1>")),
          emit (LogError "Error finding file") w)
  end.

(** [app.get('/file/:shortId', async (req, res) => { try ... catch ... })],
    on a fresh [res]. *)
Definition get_file (rev : Revision) (o : Outcomes) (id : jsstring)
  : World -> Response * World := fun w =>
  match get_try rev o id [] w with
  | (inr response, _, w') => (response, w')
  | (inl error, res, w') => get_catch rev error res w'
  end.

(** ** Reading a trace *)

Definition is_blob_write (e : Event) : bool :=
  match e with BlobWrite _ => true | _ => false end.

(** A call that touches stored bytes, in the blob store or over HTTPS. *)
Definition is_blob_access (e : Event) : bool :=
  match e with
  | BlobWrite _ | BlobDestroy _ | BlobRead _ | Fetch _ _ => true
  | _ => false
  end.

Definition is_registry_call (e : Event) : bool :=
  match e with FindOne _ | Save _ => true | _ => false end.

(** The events of a request: what the trace gained between two worlds. *)
Definition events_since (w w' : World) : list Event :=
  skipn (length (trace w)) (trace w').

(** ** The words of the specification *)

(** What the specification calls whitespace, code point by code point: the
    white space and line terminator characters of ECMAScript. *)
Definition whitespace_code_points : list N :=
  [9; 10; 11; 12; 13; 32; 160; 5760; 8192; 8193; 8194; 8195; 8196; 8197; 8198;
   8199; 8200; 8201; 8202; 8232; 8233; 8239; 8287; 12288; 65279].

Definition whitespace (c : N) : bool := existsb (N.eqb c) whitespace_code_points.

(** The characters of [A-Za-z0-9_-], one by one. *)
Definition class_characters : jsstring :=
  Js.lit "ABCDEFGHIJKLMNOPQRSTUVWXYZabcdefghijklmnopqrstuvwxyz0123456789_-".

Definition in_class (c : N) : bool := existsb (N.eqb c) class_characters.

(** Trimming: the leading whitespace goes, then the trailing whitespace. *)
Fixpoint drop_leading (s : jsstring) : jsstring :=
  match s with
  | [] => []
  | c :: t => if whitespace c then drop_leading t else s
  end.

Fixpoint drop_trailing (s : jsstring) : jsstring :=
  match s with
  | [] => []
  | c :: t =>
      match drop_trailing t with
      | [] => if whitespace c then [] else [c]
      | kept => c :: kept
      end
  end.

Definition spec_trim (s : jsstring) : jsstring := drop_trailing (drop_leading s).

(** The maximal runs of a string: each run is a block of adjacent characters
    that are all whitespace or all not, tagged by which, and neighbouring
    runs differ in their tag. *)
Fixpoint runs (s : jsstring) : list (bool * jsstring) :=
  match s with
  | [] => []
  | c :: t =>
      match runs t with
      | (ws, r) :: rest =>
          if Bool.eqb ws (whitespace c) then (ws, c :: r) :: rest
          else (whitespace c, [c]) :: (ws, r) :: rest
      | [] => [(whitespace c, [c])]
      end
  end.

(** Runs are maximal: two neighbours never have the same tag. *)
Fixpoint alternating (rs : list (bool * jsstring)) : Prop :=
  match rs with
  | r1 :: ((r2 :: _) as rest) => fst r1 <> fst r2 /\ alternating rest
  | _ => True
  end.

(** Every maximal run of whitespace replaced by a single hyphen. *)
Definition hyphenate_runs (s : jsstring) : jsstring :=
  concat (List.map (fun run : bool * jsstring => if fst run then Js.lit "-" else snd run)
                   (runs s)).

(** Every character outside [A-Za-z0-9_-] deleted. *)
Definition spec_strip (s : jsstring) : jsstring := List.filter in_class s.

(** Sanitization as the specification words it: trim, then hyphenate the
    whitespace runs, then strip.  Nothing here is shared with [sanitize]:
    whitespace and the character class are spelled out, and trimming is
    defined on its own. *)
Definition spec_sanitize (customName : jsstring) : jsstring :=
  spec_strip (hyphenate_runs (spec_trim customName)).

(** The second replacement of [sanitize] read as a filter. *)
Definition strip_outside (s : jsstring) : jsstring := List.filter name_char s.

(** The documented contract of [nanoid(size)]: [size] characters, each from
    the URL-safe alphabet [A-Za-z0-9_-]. *)
Definition url_safe (id : jsstring) : Prop := Forall (fun c => name_char c = true) id.

Definition nanoid_contract (gen : nat -> jsstring) : Prop :=
  forall size, length (gen size) = size /\ url_safe (gen size).

(** The schema on the collection: [shortId] is required (not empty) and
    unique. *)
Definition registry_ok (docs : list FileDoc) : Prop :=
  Forall (fun d => shortId d <> []) docs /\ List.NoDup (List.map shortId docs).

Definition known (id : jsstring) (docs : list FileDoc) : Prop :=
  exists d, In d docs /\ shortId d = id.

(** ** A concrete deployment, for the examples *)

Definition urlAlphabet : jsstring :=
  Js.lit "useandom-26T198340PX75pxJACKVERYMINDBUSHWOLF_GQZbfghjklqvwyzrict".

(** A generator in the manner of the nanoid package: the i-th character is
    picked from a 64-character URL-safe alphabet by the low six bits of the
    i-th random byte. *)
Definition alphabet_gen (random : nat -> N) (size : nat) : jsstring :=
  List.map (fun i => nth (N.to_nat (N.land (random i) 63)) urlAlphabet hyphen)
           (seq 0 size).

Definition demo_random (i : nat) : N := 37 * N.of_nat i + 11.

Definition demo_assigned (k : nat) : jsstring * jsstring :=
  (Js.lit "instalink_uploads/blob" ++ [48 + N.of_nat k],
   Js.lit "https://res.cloudinary.com/demo/raw/upload/v1/instalink_uploads/blob"
     ++ [48 + N.of_nat k]).

Definition demo_outcomes (gen : nat -> jsstring) (d : DestroyOutcome)
  (f : FetchOutcome) : Outcomes :=
  {| nanoid := gen; assigned := demo_assigned;
     find_rejects := false; save_rejects := false; concurrent := [];
     destroy_outcome := d;
     cloudinary_url := fun id _ => Js.lit "https://res.cloudinary.com/demo/fl_attachment/"
                                     ++ default [] id;
     fetch_outcome := f; sendFile_status := 200; clock := 1700000000000 |}.

Definition quiet : Outcomes :=
  demo_outcomes (alphabet_gen demo_random) Destroyed (FetchStream [37; 80; 68; 70]).

(** The same, with a Cloudinary whose destroy call rejects. *)
Definition destroy_down : Outcomes :=
  demo_outcomes (alphabet_gen demo_random) DestroyRejects (FetchStream [37; 80; 68; 70]).

(** A draw of nanoid that some document already has. *)
Definition unlucky : Outcomes :=
  demo_outcomes (fun _ => Js.lit "a1b2c3d4") Destroyed (FetchStream [37; 80; 68; 70]).

(** Another request commits the name "race" between this request's lookup
    and its save. *)
Definition racing (doc : FileDoc) : Outcomes :=
  {| nanoid := alphabet_gen demo_random; assigned := demo_assigned;
     find_rejects := false; save_rejects := false; concurrent := [doc];
     destroy_outcome := Destroyed;
     cloudinary_url := fun id _ => default [] id;
     fetch_outcome := FetchStream []; sendFile_status := 200;
     clock := 1700000000000 |}.


(** An upstream that does not answer in time. *)
Definition upstream_slow : Outcomes :=
  demo_outcomes (alphabet_gen demo_random) Destroyed
    (FetchError (Some ECONNABORTED) None).

(** A database that does not answer. *)
Definition db_down : Outcomes :=
  {| nanoid := alphabet_gen demo_random; assigned := demo_assigned;
     find_rejects := true; save_rejects := true; concurrent := [];
     destroy_outcome := Destroyed;
     cloudinary_url := fun id _ => default [] id;
     fetch_outcome := FetchStream []; sendFile_status := 200;
     clock := 1700000000000 |}.

Definition demo_cfg : Config := {| RENDER_EXTERNAL_URL := None; env_PORT := None |}.

Definition demo_part : FilePart :=
  {| part_originalname := Js.lit "resume.pdf";
     part_mimetype := Js.lit "application/pdf";
     part_bytes := [37; 80; 68; 70] |}.

Definition demo_request (name : option jsstring) : UploadRequest :=
  {| parts := [demo_part]; customName := name;
     protocol := Js.lit "http"; host := Js.lit "localhost:3000" |}.

(** A form that carries a second file. *)
Definition demo_request_two_files (name : option jsstring) : UploadRequest :=
  {| parts := [demo_part;
               {| part_originalname := Js.lit "photo.png";
                  part_mimetype := Js.lit "image/png";
                  part_bytes := [137; 80; 78; 71] |}];
     customName := name;
     protocol := Js.lit "http"; host := Js.lit "localhost:3000" |}.

(** A document as an earlier upload left it. *)
Definition demo_doc (id : jsstring) (type : option jsstring) : FileDoc :=
  {| shortId := id; originalName := Js.lit "old.pdf";
     fileUrl := Js.lit "https://res.cloudinary.com/demo/raw/upload/v1/instalink_uploads/old";
     mimeType := type; cloudinaryId := Some (Js.lit "instalink_uploads/old");
     resourceType := None; createdAt := 1600000000000 |}.

Definition demo_world (docs : list FileDoc) : World :=
  {| db := docs; blobs := ∅; trace := [] |}.

(** The request with its [customName] field taken out of the form. *)
Definition without_customName (req : UploadRequest) : UploadRequest :=
  {| parts := parts req; customName := None;
     protocol := protocol req; host := host req |}.

(** * Properties *)

(** ** Strings *)

Lemma eqb_spec_js (a b : jsstring) : Js.eqb a b = true <-> a = b.
Proof.
  revert b. induction a as [|x a IH]; intros [|y b]; simpl; try easy.
  rewrite andb_true_iff, N.eqb_eq, IH. split.
  - intros [-> ->]. reflexivity.
  - intros [= -> ->]. auto.
Qed.

Lemma eqb_refl_js (a : jsstring) : Js.eqb a a = true.
Proof. apply eqb_spec_js. reflexivity. Qed.

Lemma eqb_false_js (a b : jsstring) : a <> b -> Js.eqb a b = false.
Proof.
  intros Hne. destruct (Js.eqb a b) eqn:E; [|reflexivity].
  apply eqb_spec_js in E. contradiction.
Qed.

Lemma drop_while_none p (s : jsstring) :
  Forall (fun c => p c = false) s -> Js.drop_while p s = s.
Proof.
  intros H. destruct H as [|c t Hc Ht]; simpl; [reflexivity|].
  rewrite Hc. reflexivity.
Qed.

Lemma trim_none (s : jsstring) :
  Forall (fun c => Js.is_space c = false) s -> Js.trim s = s.
Proof.
  intros H. unfold Js.trim, Js.trim_start, Js.trim_end.
  rewrite (drop_while_none _ s H).
  rewrite drop_while_none by (apply Forall_rev; exact H).
  apply rev_involutive.
Qed.

Lemma replace_plus_cons cls rep c (t : jsstring) :
  Js.replace_plus cls rep (c :: t) =
  if cls c then rep ++ Js.replace_plus cls rep (Js.drop_while cls t)
  else c :: Js.replace_plus cls rep t.
Proof. simp replace_plus. reflexivity. Qed.

Lemma replace_plus_none cls rep (s : jsstring) :
  Forall (fun c => cls c = false) s -> Js.replace_plus cls rep s = s.
Proof.
  induction 1 as [|c t Hc Ht IH]; [reflexivity|].
  rewrite replace_plus_cons, Hc, IH. reflexivity.
Qed.

Lemma replace_each_delete cls (s : jsstring) :
  Js.replace_each cls [] s = List.filter (fun c => negb (cls c)) s.
Proof.
  induction s as [|c t IH]; simpl; [reflexivity|].
  destruct (cls c); simpl; rewrite IH; reflexivity.
Qed.

Lemma strip_is_filter (s : jsstring) :
  Js.replace_each (fun c => negb (name_char c)) [] s = strip_outside s.
Proof.
  rewrite replace_each_delete. unfold strip_outside.
  apply filter_ext. intros c. apply negb_involutive.
Qed.

Lemma name_char_not_space c : name_char c = true -> Js.is_space c = false.
Proof.
  intros H. apply not_true_is_false. intros Hs.
  unfold name_char, Js.is_space, Js.is_white_space, Js.is_line_terminator,
    hyphen, underscore in *.
  rewrite ?orb_true_iff, ?andb_true_iff, ?N.eqb_eq, ?N.leb_le in *.
  lia.
Qed.

(** *** The runs of a string *)

Lemma runs_head c (t : jsstring) :
  exists r rest, runs (c :: t) = (whitespace c, r) :: rest.
Proof.
  simpl. destruct (runs t) as [|[ws r] rest]; [eauto|].
  destruct (Bool.eqb ws (whitespace c)) eqn:E; [|eauto].
  apply eqb_prop in E. subst ws. eauto.
Qed.

(** The runs partition the string. *)
Lemma runs_concat (s : jsstring) : concat (List.map snd (runs s)) = s.
Proof.
  induction s as [|c t IH]; simpl; [reflexivity|].
  destruct (runs t) as [|[ws r] rest]; simpl in *.
  - subst t. reflexivity.
  - destruct (Bool.eqb ws (whitespace c)); simpl; rewrite IH; reflexivity.
Qed.

(** Each run is not empty and holds only whitespace, or none. *)
Lemma runs_uniform (s : jsstring) :
  Forall (fun run => snd run <> [] /\
                     Forall (fun c => whitespace c = fst run) (snd run)) (runs s).
Proof.
  induction s as [|c t IH]; simpl; [constructor|].
  destruct (runs t) as [|[ws r] rest].
  - repeat constructor. discriminate.
  - destruct (Bool.eqb ws (whitespace c)) eqn:E.
    + apply eqb_prop in E. apply Forall_cons_iff in IH as [[_ Hr] Hrest].
      constructor; [|exact Hrest]. simpl in *. split; [discriminate|].
      constructor; [symmetry; exact E|exact Hr].
    + constructor; [|exact IH]. simpl. split; [discriminate|].
      repeat constructor.
Qed.

Lemma runs_maximal (s : jsstring) : alternating (runs s).
Proof.
  induction s as [|c t IH]; simpl; [exact I|].
  destruct (runs t) as [|[ws r] rest] eqn:Ht; [exact I|].
  destruct (Bool.eqb ws (whitespace c)) eqn:E.
  - destruct rest; [exact I|]. simpl in *. exact IH.
  - split; [|exact IH]. simpl. intros Heq.
    rewrite <- Heq, eqb_reflx in E. discriminate.
Qed.

Lemma hyphenate_cons_other c (t : jsstring) :
  whitespace c = false -> hyphenate_runs (c :: t) = c :: hyphenate_runs t.
Proof.
  intros Hc. unfold hyphenate_runs. simpl.
  destruct (runs t) as [|[ws r] rest]; simpl; rewrite Hc; [reflexivity|].
  destruct ws; simpl; reflexivity.
Qed.

Lemma hyphenate_cons_space c (t : jsstring) :
  whitespace c = true ->
  hyphenate_runs (c :: t) = hyphen :: hyphenate_runs (Js.drop_while whitespace t).
Proof.
  intros Hc. revert c Hc. induction t as [|d t IH]; intros c Hc.
  - unfold hyphenate_runs. simpl. rewrite Hc. reflexivity.
  - destruct (whitespace d) eqn:Hd.
    + simpl Js.drop_while. rewrite Hd, <- (IH d Hd).
      destruct (runs_head d t) as (r & rest & Hr). rewrite Hd in Hr.
      unfold hyphenate_runs. change (runs (c :: d :: t)) with
        (match runs (d :: t) with
         | (ws, r) :: rest =>
             if Bool.eqb ws (whitespace c) then (ws, c :: r) :: rest
             else (whitespace c, [c]) :: (ws, r) :: rest
         | [] => [(whitespace c, [c])]
         end).
      rewrite Hr, Hc. reflexivity.
    + simpl Js.drop_while. rewrite Hd.
      destruct (runs_head d t) as (r & rest & Hr). rewrite Hd in Hr.
      unfold hyphenate_runs. change (runs (c :: d :: t)) with
        (match runs (d :: t) with
         | (ws, r) :: rest =>
             if Bool.eqb ws (whitespace c) then (ws, c :: r) :: rest
             else (whitespace c, [c]) :: (ws, r) :: rest
         | [] => [(whitespace c, [c])]
         end).
      rewrite Hr, Hc. reflexivity.
Qed.

Lemma replace_plus_hyphenates_runs (s : jsstring) :
  Js.replace_plus whitespace [hyphen] s = hyphenate_runs s.
Proof.
  remember (length s) as n eqn:Hn. revert s Hn.
  induction n as [n IH] using lt_wf_ind. intros [|c t] Hn; [reflexivity|].
  rewrite replace_plus_cons. destruct (whitespace c) eqn:Hc.
  - rewrite (hyphenate_cons_space c t Hc). simpl. f_equal.
    apply (IH (length (Js.drop_while whitespace t))); [|reflexivity].
    subst n. simpl. clear. apply Nat.lt_succ_r.
    induction t as [|d t IHt]; simpl; [lia|]. destruct (whitespace d); simpl; lia.
  - rewrite (hyphenate_cons_other c t Hc). f_equal.
    apply (IH (length t)); [subst n; simpl; lia|reflexivity].
Qed.

(** *** The spelled-out sets are those of the source *)

Lemma whitespace_is_space c : whitespace c = Js.is_space c.
Proof.
  apply Bool.eq_true_iff_eq.
  unfold whitespace, whitespace_code_points, Js.is_space, Js.is_white_space,
    Js.is_line_terminator.
  cbn [existsb]. rewrite orb_false_r.
  rewrite ?orb_true_iff, ?andb_true_iff, ?N.eqb_eq, ?N.leb_le. lia.
Qed.

Lemma in_class_name_char c : in_class c = name_char c.
Proof.
  apply Bool.eq_true_iff_eq.
  unfold in_class, name_char, hyphen, underscore.
  change class_characters with
    [65; 66; 67; 68; 69; 70; 71; 72; 73; 74; 75; 76; 77; 78; 79; 80; 81; 82; 83; 84;
     85; 86; 87; 88; 89; 90; 97; 98; 99; 100; 101; 102; 103; 104; 105; 106; 107; 108;
     109; 110; 111; 112; 113; 114; 115; 116; 117; 118; 119; 120; 121; 122; 48; 49; 50;
     51; 52; 53; 54; 55; 56; 57; 95; 45].
  cbn [existsb]. rewrite orb_false_r.
  rewrite ?orb_true_iff, ?andb_true_iff, ?N.eqb_eq, ?N.leb_le. lia.
Qed.

(** Trimming, as the specification means it: the string is a block of
    whitespace, the trimmed string, and a block of whitespace, and the
    trimmed string neither starts nor ends with whitespace. *)
Lemma drop_leading_spec (s : jsstring) :
  exists pre, s = pre ++ drop_leading s /\
    forallb whitespace pre = true /\
    (forall c, hd_error (drop_leading s) = Some c -> whitespace c = false).
Proof.
  induction s as [|c t (pre & Heq & Hpre & Hhd)]; [exists []; repeat split; discriminate|].
  simpl. destruct (whitespace c) eqn:Hc.
  - exists (c :: pre). simpl. rewrite Hc, Hpre, <- Heq. repeat split. exact Hhd.
  - exists []. repeat split. intros c' [= <-]. exact Hc.
Qed.

Lemma drop_trailing_spec (s : jsstring) :
  exists post, s = drop_trailing s ++ post /\
    forallb whitespace post = true /\
    (forall init c, drop_trailing s = init ++ [c] -> whitespace c = false).
Proof.
  induction s as [|c t (post & Heq & Hpost & Hlast)].
  - exists []. repeat split. intros [|? ?] ? ?; discriminate.
  - simpl. destruct (drop_trailing t) as [|k kept] eqn:Ht.
    + simpl in Heq. subst t. destruct (whitespace c) eqn:Hc.
      * exists (c :: post). simpl. rewrite Hc. repeat split; [exact Hpost|].
        intros [|? ?] ? ?; discriminate.
      * exists post. repeat split; [exact Hpost|].
        intros [|? [|? ?]] c' H; try discriminate. injection H as <-. exact Hc.
    + exists post. split; [simpl; f_equal; exact Heq|]. split; [exact Hpost|].
      intros [|i init] c' H; [discriminate|]. injection H as <- H.
      apply (Hlast init c' H).
Qed.

Lemma drop_trailing_head c (t : jsstring) :
  whitespace c = false -> exists t', drop_trailing (c :: t) = c :: t'.
Proof.
  intros Hc. simpl. destruct (drop_trailing t) as [|k kept]; rewrite ?Hc; eauto.
Qed.

Lemma spec_trim_spec (s : jsstring) :
  exists pre post,
    s = pre ++ spec_trim s ++ post /\
    forallb whitespace pre = true /\ forallb whitespace post = true /\
    (forall c, hd_error (spec_trim s) = Some c -> whitespace c = false) /\
    (forall init c, spec_trim s = init ++ [c] -> whitespace c = false).
Proof.
  unfold spec_trim.
  destruct (drop_leading_spec s) as (pre & Heq & Hpre & Hhd).
  destruct (drop_trailing_spec (drop_leading s)) as (post & Heq' & Hpost & Hlast).
  exists pre, post. split; [rewrite <- Heq'; exact Heq|].
  split; [exact Hpre|]. split; [exact Hpost|]. split; [|exact Hlast].
  destruct (drop_leading s) as [|c t]; [intros c H; discriminate H|].
  assert (Hc : whitespace c = false) by (apply Hhd; reflexivity).
  destruct (drop_trailing_head c t Hc) as [t' ->]. intros c' [= <-]. exact Hc.
Qed.

Lemma drop_leading_is_trim_start (s : jsstring) : drop_leading s = Js.trim_start s.
Proof.
  unfold Js.trim_start. induction s as [|c t IH]; simpl; [reflexivity|].
  rewrite whitespace_is_space, IH. reflexivity.
Qed.

Lemma drop_while_snoc p (s : jsstring) c :
  Js.drop_while p (s ++ [c]) =
  match Js.drop_while p s with
  | [] => if p c then [] else [c]
  | kept => kept ++ [c]
  end.
Proof.
  induction s as [|d s IH]; simpl; [destruct (p c); reflexivity|].
  destruct (p d); [exact IH|reflexivity].
Qed.

Lemma drop_trailing_is_trim_end (s : jsstring) : drop_trailing s = Js.trim_end s.
Proof.
  unfold Js.trim_end. induction s as [|c t IH]; [reflexivity|].
  cbn [drop_trailing rev]. rewrite IH, drop_while_snoc, whitespace_is_space.
  destruct (Js.drop_while Js.is_space (rev t)) as [|d kept]; simpl.
  - destruct (Js.is_space c); reflexivity.
  - rewrite rev_app_distr. simpl.
    destruct (rev kept ++ [d]) eqn:E; [|reflexivity].
    apply app_eq_nil in E as [_ E]. discriminate.
Qed.

Lemma spec_trim_is_trim (s : jsstring) : spec_trim s = Js.trim s.
Proof.
  unfold spec_trim, Js.trim.
  rewrite drop_trailing_is_trim_end, drop_leading_is_trim_start. reflexivity.
Qed.

Lemma drop_while_ext p q (s : jsstring) :
  (forall c, p c = q c) -> Js.drop_while p s = Js.drop_while q s.
Proof.
  intros Hpq. induction s as [|c t IH]; simpl; [reflexivity|].
  rewrite <- Hpq. destruct (p c); [exact IH|reflexivity].
Qed.

Lemma replace_plus_ext p q rep (s : jsstring) :
  (forall c, p c = q c) -> Js.replace_plus p rep s = Js.replace_plus q rep s.
Proof.
  intros Hpq. remember (length s) as n eqn:Hn. revert s Hn.
  induction n as [n IH] using lt_wf_ind. intros [|c t] Hn.
  - simp replace_plus. reflexivity.
  - rewrite !replace_plus_cons, <- Hpq, <- (drop_while_ext p q t Hpq).
    destruct (p c).
    + f_equal. apply (IH (length (Js.drop_while p t))); [|reflexivity].
      subst n. simpl. apply Nat.lt_succ_r. clear.
      induction t as [|d t IHt]; simpl; [lia|]. destruct (p d); simpl; lia.
    + f_equal. apply (IH (length t)); [subst n; simpl; lia|reflexivity].
Qed.

(** The greedy global replacement of [\s+] by a hyphen is the hyphenation of
    the maximal whitespace runs. *)
Lemma replace_plus_hyphenates (s : jsstring) :
  Js.replace_plus Js.is_space [hyphen] s = hyphenate_runs s.
Proof.
  rewrite (replace_plus_ext Js.is_space whitespace)
    by (intros c; symmetry; apply whitespace_is_space).
  apply replace_plus_hyphenates_runs.
Qed.

Lemma strip_is_spec_strip (s : jsstring) :
  Js.replace_each (fun c => negb (name_char c)) [] s = spec_strip s.
Proof.
  rewrite replace_each_delete. unfold spec_strip.
  apply filter_ext. intros c. rewrite in_class_name_char. apply negb_involutive.
Qed.

(** ** Sanitization *)

(** C5: the sanitized identifier of a custom name is the result of trimming
    it, then replacing every maximal run of whitespace by a single hyphen,
    then deleting every character outside [A-Za-z0-9_-], in that order.  It
    holds for every string, the non-empty ones the route sanitizes among
    them. *)
Theorem sanitize_trims_hyphenates_strips (customName : jsstring) :
  sanitize customName = spec_sanitize customName.
Proof.
  unfold sanitize, spec_sanitize.
  rewrite strip_is_spec_strip, replace_plus_hyphenates, spec_trim_is_trim.
  reflexivity.
Qed.

Lemma strip_outside_safe (s : jsstring) : url_safe (strip_outside s).
Proof.
  unfold url_safe, strip_outside. apply List.Forall_forall. intros c Hc.
  apply filter_In in Hc. tauto.
Qed.

Lemma sanitize_safe (s : jsstring) : url_safe (sanitize s).
Proof. unfold sanitize. rewrite strip_is_filter. apply strip_outside_safe. Qed.

Lemma strip_outside_fixed (s : jsstring) : url_safe s -> strip_outside s = s.
Proof.
  unfold url_safe, strip_outside. induction 1 as [|c t Hc Ht IH]; simpl; [reflexivity|].
  rewrite Hc, IH. reflexivity.
Qed.

Lemma sanitize_fixed (s : jsstring) : url_safe s -> sanitize s = s.
Proof.
  intros Hs. unfold sanitize.
  assert (Hnone : Forall (fun c => Js.is_space c = false) s).
  { eapply List.Forall_impl; [|exact Hs]. intros c. apply name_char_not_space. }
  rewrite (trim_none s Hnone), (replace_plus_none _ _ s Hnone), strip_is_filter.
  apply strip_outside_fixed, Hs.
Qed.

(** C6: sanitization is idempotent: sanitizing the sanitized form of any
    custom name gives that form back. *)
Theorem sanitize_idempotent (customName : jsstring) :
  sanitize (sanitize customName) = sanitize customName.
Proof. apply sanitize_fixed, sanitize_safe. Qed.

(** ** The registry and the middleware *)

Lemma find_known id (docs : list FileDoc) :
  known id docs -> exists d, List.find (has_shortId id) docs = Some d.
Proof.
  intros (d & Hin & Hid). destruct (List.find (has_shortId id) docs) eqn:E; [eauto|].
  exfalso. eapply find_none in E; [|exact Hin].
  unfold has_shortId in E. rewrite Hid, eqb_refl_js in E. discriminate.
Qed.

Lemma find_unknown id (docs : list FileDoc) :
  ~ known id docs -> List.find (has_shortId id) docs = None.
Proof.
  intros Hno. destruct (List.find (has_shortId id) docs) as [d|] eqn:E; [|reflexivity].
  exfalso. apply Hno. apply find_some in E as [Hin Hd].
  exists d. split; [exact Hin|]. apply eqb_spec_js, Hd.
Qed.

Lemma exists_known id (docs : list FileDoc) :
  existsb (has_shortId id) docs = true <-> known id docs.
Proof.
  rewrite existsb_exists. unfold known, has_shortId.
  split; intros (d & Hin & Hd); exists d; (split; [exact Hin|]); apply eqb_spec_js, Hd.
Qed.

Lemma insert_unique_known d (docs : list FileDoc) :
  known (shortId d) docs -> insert_unique d docs = None.
Proof. intros H. unfold insert_unique. apply exists_known in H. rewrite H. reflexivity. Qed.

Lemma insert_unique_fresh d (docs : list FileDoc) :
  ~ known (shortId d) docs -> insert_unique d docs = Some (docs ++ [d]).
Proof.
  intros H. unfold insert_unique.
  destruct (existsb (has_shortId (shortId d)) docs) eqn:E; [|reflexivity].
  apply exists_known in E. contradiction.
Qed.

Lemma skipn_app_exact {A} (l l' : list A) : skipn (length l) (l ++ l') = l'.
Proof. induction l; simpl; auto. Qed.

(** The middleware stores one blob per file part and touches nothing else. *)
Lemma upload_any_effect o ps : forall k w files w1,
  upload_any o k ps w = (files, w1) ->
  db w1 = db w /\
  trace w1 = trace w ++ List.map (fun f => BlobWrite (filename f)) files /\
  length files = length ps.
Proof.
  induction ps as [|p ps IH]; intros k w files w1; simpl.
  - intros [= <- <-]. rewrite app_nil_r. auto.
  - unfold handle_file. destruct (assigned o k) as [name where_].
    destruct (upload_any _ _ _ _) as [fs w2] eqn:E. intros [= <- <-].
    apply IH in E as (Hdb & Htr & Hlen). simpl in *.
    rewrite Hdb, Htr, <- app_assoc, Hlen. auto.
Qed.

Lemma upload_any_single o p w :
  upload_any o 0 [p] w =
  ([{| originalname := part_originalname p; mimetype := part_mimetype p;
       path := snd (assigned o 0); filename := fst (assigned o 0) |}],
   emit (BlobWrite (fst (assigned o 0)))
     (with_blobs (<[fst (assigned o 0) := part_bytes p]> (blobs w)) w)).
Proof. simpl. unfold handle_file. destruct (assigned o 0). reflexivity. Qed.

Lemma upload_any_cons o k p ps w :
  exists f fs w1, upload_any o k (p :: ps) w = (f :: fs, w1).
Proof.
  simpl. destruct (handle_file o k p w) as [f w1].
  destruct (upload_any o (S k) ps w1) as [fs w2]. eauto.
Qed.

Lemma filter_blob_writes (files : list MulterFile) :
  List.filter is_blob_write (List.map (fun f => BlobWrite (filename f)) files)
    = List.map (fun f => BlobWrite (filename f)) files /\
  List.filter is_registry_call (List.map (fun f => BlobWrite (filename f)) files) = [].
Proof.
  induction files as [|f fs [IH1 IH2]]; simpl; [auto|].
  rewrite IH1, IH2. auto.
Qed.

Lemma new_File_shortId rev o id file : shortId (new_File rev o id file) = id.
Proof. destruct rev; reflexivity. Qed.

(** ** The generator of the examples honours the contract of nanoid *)

Lemma alphabet_gen_contract random : nanoid_contract (alphabet_gen random).
Proof.
  intros size. unfold alphabet_gen. split; [rewrite length_map; apply length_seq|].
  unfold url_safe. apply List.Forall_forall. intros c Hc.
  apply in_map_iff in Hc as (i & <- & _).
  assert (Hall : Forall (fun c => name_char c = true) urlAlphabet)
    by (vm_compute; repeat constructor).
  rewrite List.Forall_forall in Hall. apply Hall, nth_In.
  assert (Hlen : length urlAlphabet = 64%nat) by reflexivity. rewrite Hlen.
  assert (N.land (random i) 63 < 64).
  { change 63 with (N.ones 6). rewrite N.land_ones. apply N.mod_lt. discriminate. }
  lia.
Qed.

(** ** GET /file/:shortId for an unknown identifier *)

(** C8: whatever the collection holds, a GET for a [shortId] that no document
    has is answered 404 with the readable "File not found" page; the only
    call the route makes is the registry lookup, so no blob is read, fetched,
    written or destroyed, and neither the collection nor the blob store
    changes.  The lookup is taken to complete: a rejected lookup is a server
    fault, answered 500. *)
Theorem get_unknown_is_not_found rev o id w :
  find_rejects o = false ->
  ~ known id (db w) ->
  exists w',
    get_file rev o id w = (not_found rev, w') /\
    status (not_found rev) = 404 /\
    (exists rest, body (not_found rev) = Html ("<h1>File not found</h1>" ++ rest)) /\
    events_since w w' = [FindOne id] /\
    List.filter is_blob_access (events_since w w') = [] /\
    blobs w' = blobs w /\ db w' = db w.
Proof.
  intros Hfind Hunknown. exists (emit (FindOne id) w).
  assert (Hev : events_since w (emit (FindOne id) w) = [FindOne id])
    by apply skipn_app_exact.
  rewrite Hev. repeat split.
  - unfold get_file, get_try, r_bind, await, findOne. rewrite Hfind. simpl.
    rewrite (find_unknown id (db w) Hunknown). unfold send.
    destruct rev; reflexivity.
  - destruct rev; reflexivity.
  - destruct rev; simpl; eexists; reflexivity.
Qed.

Lemma get_unknown_is_not_found_witness :
  exists w',
    get_file CloudRedirect quiet (Js.lit "nope")
      (demo_world [demo_doc (Js.lit "demo") None; demo_doc (Js.lit "cv") None])
    = (not_found CloudRedirect, w') /\
    status (not_found CloudRedirect) = 404 /\
    (exists rest, body (not_found CloudRedirect) = Html ("<h1>File not found</h1>" ++ rest)) /\
    events_since (demo_world [demo_doc (Js.lit "demo") None; demo_doc (Js.lit "cv") None]) w'
      = [FindOne (Js.lit "nope")] /\
    List.filter is_blob_access
      (events_since (demo_world [demo_doc (Js.lit "demo") None; demo_doc (Js.lit "cv") None]) w')
      = [] /\
    blobs w' = blobs (demo_world [demo_doc (Js.lit "demo") None; demo_doc (Js.lit "cv") None]) /\
    db w' = db (demo_world [demo_doc (Js.lit "demo") None; demo_doc (Js.lit "cv") None]).
Proof.
  apply (get_unknown_is_not_found CloudRedirect quiet (Js.lit "nope")
           (demo_world [demo_doc (Js.lit "demo") None; demo_doc (Js.lit "cv") None])).
  - reflexivity.
  - intros (d & Hin & Hid). simpl in Hin.
    destruct Hin as [<-|[<-|[]]]; vm_compute in Hid; discriminate.
Defined.

(** ** POST /upload without a usable custom name *)

Lemma generated_path rev cfg o req file files w :
  Js.truthy_opt (customName req) = false ->
  upload_handler rev cfg o req (file :: files) w =
    let w1 := emit (Save (nanoid o 8))
                (with_db (commit_others (concurrent o) (db w)) w) in
    if save_rejects o then (upload_error rev, emit (LogError (upload_log rev)) w1)
    else match insert_unique (new_File rev o (nanoid o 8) file)
                 (commit_others (concurrent o) (db w)) with
         | Some docs =>
             (respond 200 (JsonLink (shareableLink rev cfg req (nanoid o 8))),
              with_db docs w1)
         | None => (upload_error rev, emit (LogError (upload_log rev)) w1)
         end.
Proof.
  intros Hname.
  assert (Hid : shortId (new_File rev o (nanoid o 8) file) = nanoid o 8)
    by (destruct rev; reflexivity).
  assert (Hchoose : choose_shortId rev o file (customName req) = ret (inr (nanoid o 8))).
  { unfold choose_shortId. destruct (customName req) as [[|c n]|];
      [reflexivity|discriminate|reflexivity]. }
  unfold upload_handler, try_catch, upload_try, bind. rewrite Hchoose.
  unfold ret, save, upload_catch. rewrite Hid. cbn [db emit with_db].
  destruct (save_rejects o); [reflexivity|].
  destruct (insert_unique _ _); reflexivity.
Qed.

(** C10: a [customName] field that is present and empty is handled exactly
    like an absent one.  The whole request ends in the same response and the
    same world as the request without the field; the route never answers
    invalid-name or name-taken and makes no lookup: its only registry call is
    the save of a document whose [shortId] is [nanoid(8)], 8 characters long
    under the contract of nanoid.  When that save goes through, the answer is
    200 with the link that ends in that identifier and the document is
    appended under it; when it does not, the answer is the generic 500. *)
Theorem empty_customName_is_absent rev cfg o req w p ps :
  nanoid_contract (nanoid o) ->
  parts req = p :: ps ->
  customName req = Some [] ->
  post_upload rev cfg o req w = post_upload rev cfg o (without_customName req) w /\
  length (nanoid o 8) = 8%nat /\
  fst (post_upload rev cfg o req w) <> invalid_name /\
  fst (post_upload rev cfg o req w) <> name_taken /\
  List.filter is_registry_call (events_since w (snd (post_upload rev cfg o req w)))
    = [Save (nanoid o 8)] /\
  (save_rejects o = false ->
   ~ known (nanoid o 8) (commit_others (concurrent o) (db w)) ->
   exists file files,
     fst (upload_any o 0 (parts req) w) = file :: files /\
     fst (post_upload rev cfg o req w)
       = respond 200 (JsonLink (link_base rev cfg req ++ Js.lit "/file/" ++ nanoid o 8)) /\
     db (snd (post_upload rev cfg o req w))
       = commit_others (concurrent o) (db w) ++ [new_File rev o (nanoid o 8) file] /\
     shortId (new_File rev o (nanoid o 8) file) = nanoid o 8) /\
  (save_rejects o = true \/ known (nanoid o 8) (commit_others (concurrent o) (db w)) ->
   fst (post_upload rev cfg o req w) = upload_error rev).
Proof.
  intros Hgen Hparts Hname.
  assert (Herr1 : upload_error rev <> invalid_name) by (destruct rev; discriminate).
  assert (Herr2 : upload_error rev <> name_taken) by (destruct rev; discriminate).
  split.
  { unfold post_upload. simpl.
    destruct (upload_any o 0 (parts req) w) as [[|file files] w1]; [reflexivity|].
    unfold upload_handler, upload_try. rewrite Hname. reflexivity. }
  split; [apply Hgen|].
  unfold post_upload.
  destruct (upload_any o 0 (parts req) w) as [files w1] eqn:Hany.
  pose proof (upload_any_effect o _ _ _ _ _ Hany) as (Hdb & Htr & Hlen).
  destruct files as [|file files]; [rewrite Hparts in Hlen; discriminate|].
  rewrite generated_path by (rewrite Hname; reflexivity).
  cbv zeta. rewrite Hdb. destruct (filter_blob_writes (file :: files)) as [_ Hnone].
  assert (Hev : forall tail,
            List.filter is_registry_call
              (skipn (length (trace w))
                 ((trace w1 ++ [Save (nanoid o 8)]) ++ tail))
            = Save (nanoid o 8) :: List.filter is_registry_call tail).
  { intros tail. rewrite Htr, <- !app_assoc, skipn_app_exact, !List.filter_app, Hnone.
    reflexivity. }
  unfold events_since.
  destruct (save_rejects o) eqn:Hsave.
  - cbn [fst snd trace emit with_db]. rewrite (Hev [LogError (upload_log rev)]).
    repeat split; auto. intros Hf. discriminate.
  - destruct (insert_unique _ _) as [docs|] eqn:Hins; cbn [fst snd trace emit with_db db].
    + rewrite <- (app_nil_r (trace w1 ++ _)), (Hev []).
      split; [discriminate|]. split; [discriminate|]. split; [reflexivity|]. split.
      * intros _ Hfresh. exists file, files. split; [reflexivity|].
        split; [reflexivity|]. split; [|destruct rev; reflexivity].
        rewrite insert_unique_fresh in Hins
          by (rewrite new_File_shortId; exact Hfresh).
        congruence.
      * intros [Hf|Hk]; [discriminate|].
        rewrite insert_unique_known in Hins
          by (rewrite new_File_shortId; exact Hk).
        discriminate.
    + rewrite (Hev [LogError (upload_log rev)]).
      repeat split; auto. intros _ Hfresh.
      rewrite insert_unique_fresh in Hins
        by (rewrite new_File_shortId; exact Hfresh).
      discriminate.
Qed.

Lemma empty_customName_is_absent_witness :
  post_upload CloudRedirect demo_cfg quiet (demo_request (Some [])) (demo_world [])
    = post_upload CloudRedirect demo_cfg quiet
        (without_customName (demo_request (Some []))) (demo_world []) /\
  length (nanoid quiet 8) = 8%nat /\
  fst (post_upload CloudRedirect demo_cfg quiet (demo_request (Some [])) (demo_world []))
    <> invalid_name /\
  fst (post_upload CloudRedirect demo_cfg quiet (demo_request (Some [])) (demo_world []))
    <> name_taken /\
  List.filter is_registry_call
    (events_since (demo_world [])
       (snd (post_upload CloudRedirect demo_cfg quiet (demo_request (Some []))
               (demo_world []))))
    = [Save (nanoid quiet 8)] /\
  (save_rejects quiet = false ->
   ~ known (nanoid quiet 8) (commit_others (concurrent quiet) (db (demo_world []))) ->
   exists file files,
     fst (upload_any quiet 0 (parts (demo_request (Some []))) (demo_world []))
       = file :: files /\
     fst (post_upload CloudRedirect demo_cfg quiet (demo_request (Some [])) (demo_world []))
       = respond 200 (JsonLink (link_base CloudRedirect demo_cfg (demo_request (Some []))
                                  ++ Js.lit "/file/" ++ nanoid quiet 8)) /\
     db (snd (post_upload CloudRedirect demo_cfg quiet (demo_request (Some []))
                (demo_world [])))
       = commit_others (concurrent quiet) (db (demo_world []))
           ++ [new_File CloudRedirect quiet (nanoid quiet 8) file] /\
     shortId (new_File CloudRedirect quiet (nanoid quiet 8) file) = nanoid quiet 8) /\
  (save_rejects quiet = true \/
   known (nanoid quiet 8) (commit_others (concurrent quiet) (db (demo_world []))) ->
   fst (post_upload CloudRedirect demo_cfg quiet (demo_request (Some [])) (demo_world []))
     = upload_error CloudRedirect).
Proof.
  apply (empty_customName_is_absent CloudRedirect demo_cfg quiet
           (demo_request (Some [])) (demo_world []) demo_part []).
  - apply alphabet_gen_contract.
  - reflexivity.
  - reflexivity.
Defined.

(** What a successful upload leaves behind, whichever way the identifier was
    chosen. *)
Lemma upload_commits rev cfg o req file files w w1 id :
  choose_shortId rev o file (customName req) w = (inr (inr id), w1) ->
  save_rejects o = false ->
  ~ known id (commit_others (concurrent o) (db w1)) ->
  upload_handler rev cfg o req (file :: files) w =
    (respond 200 (JsonLink (shareableLink rev cfg req id)),
     with_db (commit_others (concurrent o) (db w1) ++ [new_File rev o id file])
       (emit (Save id) (with_db (commit_others (concurrent o) (db w1)) w1))).
Proof.
  intros Hchoose Hsave Hfresh.
  assert (Hid : shortId (new_File rev o id file) = id) by (destruct rev; reflexivity).
  unfold upload_handler, try_catch, upload_try, bind. rewrite Hchoose.
  unfold save. rewrite Hsave, Hid. simpl.
  rewrite insert_unique_fresh by (rewrite Hid; exact Hfresh).
  reflexivity.
Qed.

(** C7: a valid upload without a custom name (a file is present and the
    commit goes through) creates a document whose [shortId] is the value of
    [nanoid(8)], answers 200 with the link that ends in [/file/<shortId>],
    and under the contract of nanoid that identifier has exactly 8
    characters, all from the URL-safe alphabet. *)
Theorem generated_shortId_shape rev cfg o req w p ps :
  nanoid_contract (nanoid o) ->
  parts req = p :: ps ->
  customName req = None ->
  save_rejects o = false ->
  ~ known (nanoid o 8) (commit_others (concurrent o) (db w)) ->
  exists id doc w',
    post_upload rev cfg o req w =
      (respond 200 (JsonLink (link_base rev cfg req ++ Js.lit "/file/" ++ id)), w') /\
    db w' = commit_others (concurrent o) (db w) ++ [doc] /\
    shortId doc = id /\
    length id = 8%nat /\ url_safe id.
Proof.
  intros Hgen Hparts Hname Hsave Hfresh.
  destruct (upload_any_cons o 0 p ps w) as (file & files & w1 & Hany).
  pose proof (upload_any_effect o _ _ _ _ _ Hany) as (Hdb & _ & _).
  exists (nanoid o 8), (new_File rev o (nanoid o 8) file). eexists.
  split; [|split; [|split; [|apply Hgen]]].
  - unfold post_upload. rewrite Hparts, Hany.
    apply (upload_commits rev cfg o req file files w1 w1 (nanoid o 8)).
    + rewrite Hname. reflexivity.
    + exact Hsave.
    + rewrite Hdb. exact Hfresh.
  - simpl. rewrite Hdb. reflexivity.
  - destruct rev; reflexivity.
Qed.

Lemma generated_shortId_shape_witness :
  exists id doc w',
    post_upload CloudRedirect demo_cfg quiet (demo_request None)
      (demo_world [demo_doc (Js.lit "demo") None]) =
      (respond 200 (JsonLink (link_base CloudRedirect demo_cfg (demo_request None)
                                ++ Js.lit "/file/" ++ id)), w') /\
    db w' = commit_others (concurrent quiet) (db (demo_world [demo_doc (Js.lit "demo") None]))
              ++ [doc] /\
    shortId doc = id /\
    length id = 8%nat /\ url_safe id.
Proof.
  apply (generated_shortId_shape CloudRedirect demo_cfg quiet (demo_request None)
           (demo_world [demo_doc (Js.lit "demo") None]) demo_part []).
  - apply alphabet_gen_contract.
  - reflexivity.
  - reflexivity.
  - reflexivity.
  - intros (d & Hin & Hid). simpl in Hin.
    destruct Hin as [<-|[]]. vm_compute in Hid. discriminate.
Defined.

(** ** POST /upload with a custom name that sanitizes to nothing *)

(** The claim C2 as stated fails: the middleware has stored the blob before
    the route looks at the name, so a request whose custom name is "!!!" is
    answered 400 with one blob written and still stored. *)
Lemma invalid_name_blob_already_written :
  sanitize (Js.lit "!!!") = [] /\
  fst (post_upload CloudRedirect demo_cfg quiet (demo_request (Some (Js.lit "!!!")))
         (demo_world [])) = invalid_name /\
  List.filter is_blob_write
    (trace (snd (post_upload CloudRedirect demo_cfg quiet
                   (demo_request (Some (Js.lit "!!!"))) (demo_world []))))
    = [BlobWrite (Js.lit "instalink_uploads/blob0")] /\
  blobs (snd (post_upload CloudRedirect demo_cfg quiet
                (demo_request (Some (Js.lit "!!!"))) (demo_world [])))
    !! Js.lit "instalink_uploads/blob0" = Some [37; 80; 68; 70].
Proof. vm_compute. repeat split; reflexivity. Qed.

(** C2, amended: an upload with a file and a non-empty custom name that
    sanitizes to the empty string is answered invalid-name (400); the route
    makes no registry call and the collection is unchanged, and the only blob
    writes of the request are those of the upload middleware, one per file
    part, made before the route runs. *)
Theorem invalid_name_rejected rev cfg o req w p ps name :
  parts req = p :: ps ->
  customName req = Some name ->
  name <> [] ->
  sanitize name = [] ->
  exists files w',
    fst (upload_any o 0 (parts req) w) = files /\
    length files = length (parts req) /\
    post_upload rev cfg o req w = (invalid_name, w') /\
    status invalid_name = 400 /\
    db w' = db w /\
    List.filter is_registry_call (events_since w w') = [] /\
    List.filter is_blob_write (events_since w w')
      = List.map (fun f => BlobWrite (filename f)) files.
Proof.
  intros Hparts Hname Hne Hempty.
  destruct (upload_any o 0 (parts req) w) as [files w1] eqn:Hany.
  pose proof (upload_any_effect o _ _ _ _ _ Hany) as (Hdb & Htr & Hlen).
  exists files, w1.
  assert (Hev : events_since w w1 = List.map (fun f => BlobWrite (filename f)) files).
  { unfold events_since. rewrite Htr. apply skipn_app_exact. }
  rewrite Hev. destruct (filter_blob_writes files) as [Hw Hr].
  repeat split; auto.
  unfold post_upload. rewrite Hany.
  destruct files as [|file files]; [rewrite Hparts in Hlen; discriminate|].
  unfold upload_handler, try_catch, upload_try, choose_shortId, bind.
  rewrite Hname. destruct name as [|c name]; [contradiction|].
  simpl Js.truthy. rewrite Hempty. reflexivity.
Qed.

Lemma invalid_name_rejected_witness :
  exists files w',
    fst (upload_any quiet 0 (parts (demo_request (Some (Js.lit "!!!")))) (demo_world []))
      = files /\
    length files = length (parts (demo_request (Some (Js.lit "!!!")))) /\
    post_upload CloudRedirect demo_cfg quiet (demo_request (Some (Js.lit "!!!")))
      (demo_world []) = (invalid_name, w') /\
    status invalid_name = 400 /\
    db w' = db (demo_world []) /\
    List.filter is_registry_call (events_since (demo_world []) w') = [] /\
    List.filter is_blob_write (events_since (demo_world []) w')
      = List.map (fun f => BlobWrite (filename f)) files.
Proof.
  apply (invalid_name_rejected CloudRedirect demo_cfg quiet
           (demo_request (Some (Js.lit "!!!"))) (demo_world []) demo_part []
           (Js.lit "!!!")).
  - reflexivity.
  - reflexivity.
  - discriminate.
  - reflexivity.
Defined.

(** ** Conflicts at commit time *)

(** The claim C3 as stated fails: when the unique index refuses the insert,
    the route answers 500.  First a generated identifier that a document
    already has; then a custom name that passes the lookup and is committed
    by another request before this one saves. *)
Lemma commit_conflict_answers_500 :
  known (nanoid unlucky 8) (db (demo_world [demo_doc (Js.lit "a1b2c3d4") None])) /\
  fst (post_upload CloudRedirect demo_cfg unlucky (demo_request None)
         (demo_world [demo_doc (Js.lit "a1b2c3d4") None]))
    = respond 500 (JsonError "Server error while creating link.") /\
  List.find (has_shortId (Js.lit "race")) (db (demo_world [])) = None /\
  fst (post_upload CloudRedirect demo_cfg (racing (demo_doc (Js.lit "race") None))
         (demo_request (Some (Js.lit "race"))) (demo_world []))
    = respond 500 (JsonError "Server error while creating link.").
Proof.
  split; [|vm_compute; repeat split; reflexivity].
  exists (demo_doc (Js.lit "a1b2c3d4") None). split; [left|]; reflexivity.
Qed.

Lemma find_is_known id (docs : list FileDoc) d :
  List.find (has_shortId id) docs = Some d -> known id docs.
Proof.
  intros H. apply find_some in H as [Hin Hd]. exists d.
  split; [exact Hin|]. apply eqb_spec_js, Hd.
Qed.

(** Where a 409 can come from: only from the branch of the route in which
    the lookup found the sanitized custom name, and that branch never
    reaches the save. *)
Lemma name_taken_only_at_lookup rev cfg o req files w :
  fst (upload_handler rev cfg o req files w) = name_taken ->
  exists name,
    customName req = Some name /\
    known (sanitize name) (db w) /\
    forall id, ~ In (Save id)
                 (events_since w (snd (upload_handler rev cfg o req files w))).
Proof.
  assert (Herr : upload_error rev <> name_taken) by (destruct rev; discriminate).
  destruct files as [|file files]; [discriminate|].
  unfold upload_handler, try_catch, upload_try, choose_shortId, bind, ret, findOne,
    save, upload_catch.
  assert (Hsave : forall id w0,
    fst (let (s, w') :=
           let (s, w') :=
             (let w1 := emit (Save (shortId (new_File rev o id file)))
                          (with_db (commit_others (concurrent o) (db w0)) w0) in
              if save_rejects o then (inl MongoFault, w1)
              else match insert_unique (new_File rev o id file) (db w1) with
                   | Some docs => (inr tt, with_db docs w1)
                   | None => (inl MongoDuplicateKey, w1)
                   end) in
           match s with
           | inl e => (inl e, w')
           | inr _ => (inr (respond 200 (JsonLink (shareableLink rev cfg req
                                (shortId (new_File rev o id file))))), w')
           end in
         match s with
         | inl _ => (upload_error rev, emit (LogError (upload_log rev)) w')
         | inr a => (a, w')
         end) <> name_taken).
  { intros id w0. cbv zeta. destruct (save_rejects o); [exact Herr|].
    destruct (insert_unique _ _); [discriminate|exact Herr]. }
  destruct (customName req) as [[|c name]|] eqn:Hname; cbn [Js.truthy].
  - intros H. exfalso. exact (Hsave _ _ H).
  - destruct (sanitize (c :: name)) as [|s0 s] eqn:Hs; cbn [Js.truthy negb];
      [discriminate|].
    destruct (find_rejects o) eqn:Hfind; [intros H; exfalso; exact (Herr H)|].
    cbn [db emit]. destruct (List.find _ (db w)) as [d|] eqn:Hfound.
    + intros H. exists (c :: name). split; [reflexivity|]. rewrite Hs.
      split; [exact (find_is_known _ _ _ Hfound)|].
      revert H. unfold events_since.
      destruct (cloud rev); [unfold destroy; destruct (destroy_outcome o)|];
        cbn [fst snd trace emit with_blobs]; intros H;
        try (exfalso; exact (Herr H));
        rewrite <- ?app_assoc, skipn_app_exact; intros id [Hin|Hin];
        try discriminate; try destruct Hin as [Hin|Hin]; try discriminate;
        try contradiction.
    + intros H. exfalso. exact (Hsave _ _ H).
  - intros H. exfalso. exact (Hsave _ _ H).
Qed.

(** C3, amended: whenever the route reaches the commit with an identifier
    (generated, or custom and past the advisory lookup) that the collection
    already holds at that moment, the save throws the duplicate-key error and
    the route answers internal-error (500); this request adds no document.
    A 409 comes from the lookup alone: whenever the route answers
    name-taken, the lookup found the sanitized custom name in the collection
    as the route met it, and no save was attempted. *)
Theorem commit_conflict_is_server_error rev cfg o req file files w w1 id :
  choose_shortId rev o file (customName req) w = (inr (inr id), w1) ->
  save_rejects o = false ->
  known id (commit_others (concurrent o) (db w1)) ->
  (exists w2 w',
     save o (new_File rev o id file) w1 = (inl MongoDuplicateKey, w2) /\
     upload_handler rev cfg o req (file :: files) w = (upload_error rev, w') /\
     status (upload_error rev) = 500 /\
     upload_error rev <> name_taken /\
     db w' = commit_others (concurrent o) (db w1)) /\
  (forall req' files' w0,
     fst (upload_handler rev cfg o req' files' w0) = name_taken ->
     exists name,
       customName req' = Some name /\
       known (sanitize name) (db w0) /\
       forall id', ~ In (Save id')
                     (events_since w0 (snd (upload_handler rev cfg o req' files' w0)))).
Proof.
  intros Hchoose Hsave Hknown. split; [|apply name_taken_only_at_lookup].
  assert (Hid : shortId (new_File rev o id file) = id) by (destruct rev; reflexivity).
  assert (Hsaved : save o (new_File rev o id file) w1 =
            (inl MongoDuplicateKey,
             emit (Save id) (with_db (commit_others (concurrent o) (db w1)) w1))).
  { unfold save. rewrite Hsave, Hid. simpl.
    rewrite insert_unique_known by (rewrite Hid; exact Hknown). reflexivity. }
  eexists. eexists. split; [exact Hsaved|]. split; [|split; [|split]].
  - unfold upload_handler, try_catch, upload_try, bind. rewrite Hchoose, Hsaved.
    reflexivity.
  - destruct rev; reflexivity.
  - destruct rev; discriminate.
  - reflexivity.
Qed.

Lemma commit_conflict_is_server_error_witness :
  (exists w2 w',
     save unlucky (new_File CloudRedirect unlucky (Js.lit "a1b2c3d4")
                     {| originalname := Js.lit "resume.pdf";
                        mimetype := Js.lit "application/pdf";
                        path := snd (demo_assigned 0);
                        filename := fst (demo_assigned 0) |})
       (demo_world [demo_doc (Js.lit "a1b2c3d4") None])
       = (inl MongoDuplicateKey, w2) /\
     upload_handler CloudRedirect demo_cfg unlucky (demo_request None)
       [{| originalname := Js.lit "resume.pdf"; mimetype := Js.lit "application/pdf";
           path := snd (demo_assigned 0); filename := fst (demo_assigned 0) |}]
       (demo_world [demo_doc (Js.lit "a1b2c3d4") None])
       = (upload_error CloudRedirect, w') /\
     status (upload_error CloudRedirect) = 500 /\
     upload_error CloudRedirect <> name_taken /\
     db w' = commit_others (concurrent unlucky)
               (db (demo_world [demo_doc (Js.lit "a1b2c3d4") None]))) /\
  (forall req' files' w0,
     fst (upload_handler CloudRedirect demo_cfg unlucky req' files' w0) = name_taken ->
     exists name,
       customName req' = Some name /\
       known (sanitize name) (db w0) /\
       forall id', ~ In (Save id')
                     (events_since w0
                        (snd (upload_handler CloudRedirect demo_cfg unlucky req' files' w0)))).
Proof.
  apply (commit_conflict_is_server_error CloudRedirect demo_cfg unlucky
           (demo_request None) _ [] (demo_world [demo_doc (Js.lit "a1b2c3d4") None])
           (demo_world [demo_doc (Js.lit "a1b2c3d4") None]) (Js.lit "a1b2c3d4")).
  - reflexivity.
  - reflexivity.
  - exists (demo_doc (Js.lit "a1b2c3d4") None). split; [left|]; reflexivity.
Defined.

(** ** A custom name that is taken *)

Lemma known_nonempty id (docs : list FileDoc) :
  registry_ok docs -> known id docs -> id <> [].
Proof.
  intros [Hreq _] (d & Hin & <-). rewrite List.Forall_forall in Hreq. auto.
Qed.

(** The route on a taken name, step by step: the lookup, then in the
    Cloudinary revisions the destroy call, whose outcome decides between the
    409 and the [catch]. *)
Lemma taken_name_path rev cfg o req file files name w :
  customName req = Some name ->
  registry_ok (db w) ->
  find_rejects o = false ->
  known (sanitize name) (db w) ->
  upload_handler rev cfg o req (file :: files) w =
    let w1 := emit (FindOne (sanitize name)) w in
    if cloud rev then
      let w2 := emit (BlobDestroy (filename file)) w1 in
      match destroy_outcome o with
      | Destroyed => (name_taken, with_blobs (delete (filename file) (blobs w2)) w2)
      | DestroyNotFound => (name_taken, w2)
      | DestroyRejects => (upload_error rev, emit (LogError (upload_log rev)) w2)
      end
    else (name_taken, w1).
Proof.
  intros Hname Hok Hfind Hknown.
  pose proof (known_nonempty _ _ Hok Hknown) as Hne.
  destruct (find_known _ _ Hknown) as [d Hd].
  unfold upload_handler, try_catch, upload_try, choose_shortId, bind, findOne.
  rewrite Hname. destruct name as [|c name]; [exfalso; apply Hne; reflexivity|].
  destruct (sanitize (c :: name)) as [|s0 s] eqn:Hs; [contradiction|].
  rewrite Hfind. cbn [Js.truthy negb db emit]. rewrite Hd.
  destruct rev; cbn [cloud]; try reflexivity;
    unfold destroy; destruct (destroy_outcome o); reflexivity.
Qed.

(** The claim C4 as stated fails: with the name "demo" taken and a destroy
    call that rejects, the client receives 500, not 409. *)
Lemma rejected_cleanup_answers_500 :
  known (sanitize (Js.lit "demo")) (db (demo_world [demo_doc (Js.lit "demo") None])) /\
  destroy_outcome destroy_down = DestroyRejects /\
  fst (post_upload CloudRedirect demo_cfg destroy_down (demo_request (Some (Js.lit "demo")))
         (demo_world [demo_doc (Js.lit "demo") None]))
    = respond 500 (JsonError "Server error while creating link.").
Proof.
  split; [|vm_compute; split; reflexivity].
  exists (demo_doc (Js.lit "demo") None). split; [left|]; reflexivity.
Qed.

(** C4, amended: for an upload that hits a name conflict at the lookup in a
    Cloudinary revision, the client receives name-taken (409) when the
    cleanup call resolves, whether it removed the asset or found nothing to
    remove; when the cleanup call rejects, the [catch] of the route answers
    internal-error (500) instead. *)
Theorem cleanup_outcome_decides_response rev cfg o req file files name w :
  cloud rev = true ->
  customName req = Some name ->
  registry_ok (db w) ->
  find_rejects o = false ->
  known (sanitize name) (db w) ->
  fst (upload_handler rev cfg o req (file :: files) w) =
    match destroy_outcome o with
    | Destroyed | DestroyNotFound => name_taken
    | DestroyRejects => upload_error rev
    end /\
  status name_taken = 409 /\ status (upload_error rev) = 500.
Proof.
  intros Hcloud Hname Hok Hfind Hknown.
  rewrite (taken_name_path rev cfg o req file files name w Hname Hok Hfind Hknown).
  cbv zeta. rewrite Hcloud.
  split; [destruct (destroy_outcome o); reflexivity|].
  split; [reflexivity|destruct rev; reflexivity].
Qed.

Lemma demo_registry_ok id type : id <> [] -> registry_ok [demo_doc id type].
Proof.
  intros Hne. split.
  - constructor; [exact Hne|constructor].
  - simpl. constructor; [intros []|constructor].
Qed.

Lemma cleanup_outcome_decides_response_witness :
  fst (upload_handler CloudRedirect demo_cfg destroy_down
         (demo_request (Some (Js.lit " demo ")))
         [{| originalname := Js.lit "resume.pdf"; mimetype := Js.lit "application/pdf";
             path := snd (demo_assigned 0); filename := fst (demo_assigned 0) |}]
         (demo_world [demo_doc (Js.lit "demo") None])) =
    match destroy_outcome destroy_down with
    | Destroyed | DestroyNotFound => name_taken
    | DestroyRejects => upload_error CloudRedirect
    end /\
  status name_taken = 409 /\ status (upload_error CloudRedirect) = 500.
Proof.
  apply (cleanup_outcome_decides_response CloudRedirect demo_cfg destroy_down
           (demo_request (Some (Js.lit " demo "))) _ [] (Js.lit " demo ")
           (demo_world [demo_doc (Js.lit "demo") None])).
  - reflexivity.
  - reflexivity.
  - apply demo_registry_ok. discriminate.
  - reflexivity.
  - exists (demo_doc (Js.lit "demo") None). split; [left|]; reflexivity.
Defined.

(** The claim C1 as stated fails.  In the local-disk revision the route
    answers 409 and the file just stored stays in the store; in the
    Cloudinary revisions a destroy call that rejects leaves the blob stored
    and turns the answer into 500; and when the form carries two files the
    middleware stores both while the route destroys only the first. *)
Lemma taken_name_blob_left_behind :
  (fst (post_upload LocalDisk demo_cfg quiet (demo_request (Some (Js.lit "demo")))
          (demo_world [demo_doc (Js.lit "demo") None])) = name_taken /\
   blobs (demo_world [demo_doc (Js.lit "demo") None])
     !! Js.lit "instalink_uploads/blob0" = None /\
   blobs (snd (post_upload LocalDisk demo_cfg quiet (demo_request (Some (Js.lit "demo")))
                 (demo_world [demo_doc (Js.lit "demo") None])))
     !! Js.lit "instalink_uploads/blob0" = Some [37; 80; 68; 70]) /\
  (status (fst (post_upload CloudRedirect demo_cfg destroy_down
                  (demo_request (Some (Js.lit "demo")))
                  (demo_world [demo_doc (Js.lit "demo") None]))) = 500 /\
   blobs (snd (post_upload CloudRedirect demo_cfg destroy_down
                 (demo_request (Some (Js.lit "demo")))
                 (demo_world [demo_doc (Js.lit "demo") None])))
     !! Js.lit "instalink_uploads/blob0" = Some [37; 80; 68; 70]) /\
  (fst (post_upload CloudRedirect demo_cfg quiet
          (demo_request_two_files (Some (Js.lit "demo")))
          (demo_world [demo_doc (Js.lit "demo") None])) = name_taken /\
   blobs (snd (post_upload CloudRedirect demo_cfg quiet
                 (demo_request_two_files (Some (Js.lit "demo")))
                 (demo_world [demo_doc (Js.lit "demo") None])))
     !! Js.lit "instalink_uploads/blob1" = Some [137; 80; 78; 71]).
Proof. vm_compute. repeat split; reflexivity. Qed.

(** C1, amended: in the Cloudinary revisions, for every single-file upload
    with a custom name whose sanitized form is the [shortId] of an existing
    document, when the lookup completes and the destroy call removes the
    asset, the route answers name-taken (409), asks the store to destroy
    exactly the blob this request wrote, and leaves the collection and the
    blob store as they were before the request: no blob of the failed attempt
    remains.  The name the storage engine assigns is taken to be fresh. *)
Theorem taken_name_rolls_back rev cfg o req w p name :
  cloud rev = true ->
  destroy_outcome o = Destroyed ->
  find_rejects o = false ->
  parts req = [p] ->
  customName req = Some name ->
  registry_ok (db w) ->
  known (sanitize name) (db w) ->
  blobs w !! fst (assigned o 0) = None ->
  exists w',
    post_upload rev cfg o req w = (name_taken, w') /\
    status name_taken = 409 /\
    events_since w w' = [BlobWrite (fst (assigned o 0)); FindOne (sanitize name);
                         BlobDestroy (fst (assigned o 0))] /\
    blobs w' = blobs w /\
    db w' = db w.
Proof.
  intros Hcloud Hdestroy Hfind Hparts Hname Hok Hknown Hfresh.
  unfold post_upload. rewrite Hparts, upload_any_single.
  rewrite (taken_name_path rev cfg o req _ [] name _ Hname) by assumption.
  cbv zeta. rewrite Hcloud, Hdestroy. eexists. split; [reflexivity|].
  split; [reflexivity|]. split; [|split; [|reflexivity]].
  - unfold events_since. simpl. rewrite <- !app_assoc. apply skipn_app_exact.
  - simpl. apply delete_insert_id, Hfresh.
Qed.

Lemma taken_name_rolls_back_witness :
  exists w',
    post_upload CloudRedirect demo_cfg quiet (demo_request (Some (Js.lit "my demo")))
      (demo_world [demo_doc (Js.lit "my-demo") None]) = (name_taken, w') /\
    status name_taken = 409 /\
    events_since (demo_world [demo_doc (Js.lit "my-demo") None]) w'
      = [BlobWrite (fst (assigned quiet 0)); FindOne (sanitize (Js.lit "my demo"));
         BlobDestroy (fst (assigned quiet 0))] /\
    blobs w' = blobs (demo_world [demo_doc (Js.lit "my-demo") None]) /\
    db w' = db (demo_world [demo_doc (Js.lit "my-demo") None]).
Proof.
  apply (taken_name_rolls_back CloudRedirect demo_cfg quiet
           (demo_request (Some (Js.lit "my demo")))
           (demo_world [demo_doc (Js.lit "my-demo") None]) demo_part (Js.lit "my demo")).
  - reflexivity.
  - reflexivity.
  - reflexivity.
  - reflexivity.
  - reflexivity.
  - apply demo_registry_ok. discriminate.
  - exists (demo_doc (Js.lit "my-demo") None). split; [left|]; reflexivity.
  - reflexivity.
Defined.

(** ** Proxied retrieval *)

Lemma find_in (docs : list FileDoc) d :
  registry_ok docs -> In d docs -> List.find (has_shortId (shortId d)) docs = Some d.
Proof.
  intros [_ Hnodup]. induction docs as [|a docs IH]; intros Hin; [destruct Hin|].
  simpl in Hnodup. apply NoDup_cons_iff in Hnodup as [Hnotin Hnodup].
  simpl. unfold has_shortId at 1. destruct Hin as [->|Hin].
  - rewrite eqb_refl_js. reflexivity.
  - rewrite eqb_false_js; [apply IH; assumption|].
    intros Heq. apply Hnotin. rewrite Heq. apply in_map, Hin.
Qed.






(** ** Further properties of the routes *)

(** Every character of a sanitized custom name is one of the 64 characters
    A to Z, a to z, 0 to 9, underscore and hyphen, whatever the name that
    was sent; in particular none of them is whitespace. *)
Theorem sanitized_name_characters (customName : jsstring) :
  Forall (fun c => In c (Js.lit "ABCDEFGHIJKLMNOPQRSTUVWXYZabcdefghijklmnopqrstuvwxyz0123456789_-"))
    (sanitize customName) /\
  Forall (fun c => whitespace c = false) (sanitize customName).
Proof.
  assert (Hin : forall c, In c (sanitize customName) -> In c class_characters).
  { intros c Hc. unfold sanitize in Hc. rewrite strip_is_spec_strip in Hc.
    unfold spec_strip in Hc. apply filter_In in Hc as [_ Hc].
    unfold in_class in Hc. apply existsb_exists in Hc as (x & Hx & Heq).
    apply N.eqb_eq in Heq. subst x. exact Hx. }
  split; apply List.Forall_forall; intros c Hc; apply Hin in Hc; [exact Hc|].
  vm_compute in Hc. repeat (destruct Hc as [<-|Hc]; [reflexivity|]). contradiction.
Qed.

Lemma registry_ok_snoc d (docs : list FileDoc) :
  registry_ok docs -> shortId d <> [] -> ~ known (shortId d) docs ->
  registry_ok (docs ++ [d]).
Proof.
  intros [Hreq Hnodup] Hne Hfresh. split.
  - apply List.Forall_app. split; [exact Hreq|]. constructor; [exact Hne|constructor].
  - rewrite List.map_app. simpl. apply List.NoDup_app; [exact Hnodup| |].
    + constructor; [intros []|constructor].
    + intros id Hin [<-|[]]. apply Hfresh.
      apply in_map_iff in Hin as (d' & Hid & Hin). exists d'. auto.
Qed.

Lemma insert_unique_ok d (docs docs' : list FileDoc) :
  registry_ok docs -> shortId d <> [] ->
  insert_unique d docs = Some docs' -> registry_ok docs'.
Proof.
  intros Hok Hne. unfold insert_unique.
  destruct (existsb (has_shortId (shortId d)) docs) eqn:E; [discriminate|].
  intros [= <-]. apply registry_ok_snoc; [exact Hok|exact Hne|].
  intros Hknown. apply exists_known in Hknown. congruence.
Qed.

Lemma commit_others_ok (others : list FileDoc) : forall docs,
  registry_ok docs -> Forall (fun d => shortId d <> []) others ->
  registry_ok (commit_others others docs).
Proof.
  unfold commit_others. induction others as [|d others IH]; intros docs Hok Hne;
    [exact Hok|].
  apply Forall_cons_iff in Hne as [Hd Hne]. simpl. apply IH; [|exact Hne].
  destruct (insert_unique d docs) as [docs'|] eqn:E; simpl; [|exact Hok].
  eapply insert_unique_ok; eassumption.
Qed.

Lemma choose_shortId_db rev o file name w r w' :
  nanoid o 8 <> [] ->
  choose_shortId rev o file name w = (r, w') ->
  db w' = db w /\ (forall id, r = inr (inr id) -> id <> []).
Proof.
  intros Hgen. unfold choose_shortId, bind, ret, findOne.
  destruct name as [[|c name]|]; simpl Js.truthy; cbv iota;
    try (intros [= <- <-]; split; [reflexivity|]; intros id [= <-]; exact Hgen).
  destruct (sanitize (c :: name)) as [|s0 s] eqn:Hs; cbn [Js.truthy negb].
  - intros [= <- <-]. split; [reflexivity|]. intros id. discriminate.
  - destruct (find_rejects o).
    + intros [= <- <-]. split; [reflexivity|]. intros id. discriminate.
    + cbn [db emit]. destruct (List.find _ (db w)) as [d|].
      * destruct (cloud rev); unfold destroy; [destruct (destroy_outcome o)|];
          intros [= <- <-]; (split; [reflexivity|]); intros id; discriminate.
      * intros [= <- <-]. split; [reflexivity|]. intros id [= <-]. discriminate.
Qed.

Lemma save_db o d w r w' :
  registry_ok (db w) -> Forall (fun d => shortId d <> []) (concurrent o) ->
  shortId d <> [] ->
  save o d w = (r, w') -> registry_ok (db w').
Proof.
  intros Hok Hothers Hne. unfold save. cbn [db emit with_db].
  pose proof (commit_others_ok (concurrent o) (db w) Hok Hothers) as Hok'.
  destruct (save_rejects o); [intros [= <- <-]; exact Hok'|].
  destruct (insert_unique d _) as [docs|] eqn:E; intros [= <- <-]; [|exact Hok'].
  simpl. eapply insert_unique_ok; eassumption.
Qed.

(** The schema of the collection survives every upload, whatever its
    outcome: every [shortId] is present and no two documents share one,
    provided the documents other requests commit meanwhile and the draw of
    nanoid are not empty. *)
Theorem upload_keeps_registry_ok rev cfg o req w :
  registry_ok (db w) ->
  Forall (fun d => shortId d <> []) (concurrent o) ->
  nanoid o 8 <> [] ->
  registry_ok (db (snd (post_upload rev cfg o req w))).
Proof.
  intros Hok Hothers Hgen. unfold post_upload.
  destruct (upload_any o 0 (parts req) w) as [files w1] eqn:Hany.
  apply upload_any_effect in Hany as (Hdb & _ & _). rewrite <- Hdb in Hok.
  destruct files as [|file files]; [exact Hok|].
  unfold upload_handler, try_catch, upload_try, bind.
  destruct (choose_shortId rev o file (customName req) w1) as [[e|[early|id]] w2] eqn:Hc;
    apply (choose_shortId_db _ _ _ _ _ _ _ Hgen) in Hc as [Hdb2 Hid];
    rewrite <- Hdb2 in Hok; try exact Hok.
  destruct (save o (new_File rev o id file) w2) as [[e|[]] w3] eqn:Hs;
    apply save_db in Hs; try assumption;
    destruct rev; simpl; apply (Hid id); reflexivity.
Qed.

Lemma upload_keeps_registry_ok_witness :
  registry_ok (db (snd (post_upload CloudRedirect demo_cfg quiet
                          (demo_request (Some (Js.lit "my resume")))
                          (demo_world [demo_doc (Js.lit "demo") None])))).
Proof.
  apply (upload_keeps_registry_ok CloudRedirect demo_cfg quiet
           (demo_request (Some (Js.lit "my resume")))
           (demo_world [demo_doc (Js.lit "demo") None])).
  - apply demo_registry_ok. discriminate.
  - constructor.
  - discriminate.
Defined.

Lemma commit_others_keeps id (others : list FileDoc) : forall docs,
  known id docs -> known id (commit_others others docs).
Proof.
  unfold commit_others. induction others as [|d others IH]; intros docs Hk; [exact Hk|].
  simpl. apply IH. unfold insert_unique.
  destruct (existsb (has_shortId (shortId d)) docs); simpl; [exact Hk|].
  destruct Hk as (d' & Hin & Hid). exists d'. split; [|exact Hid].
  apply in_or_app. left. exact Hin.
Qed.

Lemma find_snoc id d (docs : list FileDoc) :
  ~ known id docs -> shortId d = id ->
  List.find (has_shortId id) (docs ++ [d]) = Some d.
Proof.
  intros Hfresh Hid. induction docs as [|a docs IH]; simpl.
  - unfold has_shortId. rewrite Hid, eqb_refl_js. reflexivity.
  - unfold has_shortId at 1. rewrite eqb_false_js.
    + apply IH. intros (d' & Hin & Hd'). apply Hfresh. exists d'. split; [right|]; auto.
    + intros Heq. apply Hfresh. exists a. split; [left|]; auto.
Qed.

(** Round trip in the redirect revision: a single-file upload under a custom
    name that is free is answered 200 with the link [/file/<sanitized name>],
    and a later GET for that identifier is a 302 to the URL the storage
    engine returned for the uploaded file. *)
Theorem upload_then_get cfg o o' req w p name :
  parts req = [p] ->
  customName req = Some name ->
  sanitize name <> [] ->
  find_rejects o = false ->
  save_rejects o = false ->
  find_rejects o' = false ->
  ~ known (sanitize name) (commit_others (concurrent o) (db w)) ->
  fst (post_upload CloudRedirect cfg o req w) =
    respond 200 (JsonLink (link_base CloudRedirect cfg req ++ Js.lit "/file/"
                             ++ sanitize name)) /\
  fst (get_file CloudRedirect o' (sanitize name)
         (snd (post_upload CloudRedirect cfg o req w))) =
    respond 302 (Redirect (snd (assigned o 0))).
Proof.
  intros Hparts Hname Hne Hfind Hsave Hfind' Hfresh.
  assert (Hfresh0 : ~ known (sanitize name) (db w)).
  { intros Hk. apply Hfresh, commit_others_keeps, Hk. }
  unfold post_upload. rewrite Hparts, upload_any_single.
  set (file := {| originalname := part_originalname p; mimetype := part_mimetype p;
                  path := snd (assigned o 0); filename := fst (assigned o 0) |}).
  set (w1 := emit _ _).
  assert (Hchoose : choose_shortId CloudRedirect o file (customName req) w1 =
            (inr (inr (sanitize name)), emit (FindOne (sanitize name)) w1)).
  { unfold choose_shortId, bind, findOne. rewrite Hname.
    destruct name as [|c name]; [exfalso; apply Hne; reflexivity|].
    destruct (sanitize (c :: name)) as [|s0 s] eqn:Hs; [contradiction|].
    rewrite Hfind. cbn [Js.truthy negb db emit with_blobs w1].
    rewrite (find_unknown _ _ Hfresh0). reflexivity. }
  rewrite (upload_commits CloudRedirect cfg o req file [] w1 _ _ Hchoose Hsave)
    by exact Hfresh.
  split; [reflexivity|].
  unfold get_file, get_try, r_bind, await, findOne. rewrite Hfind'.
  cbn [snd db emit with_db with_blobs].
  rewrite (find_snoc (sanitize name) (new_File CloudRedirect o (sanitize name) file))
    by (exact Hfresh || reflexivity).
  reflexivity.
Qed.

Lemma upload_then_get_witness :
  fst (post_upload CloudRedirect demo_cfg quiet (demo_request (Some (Js.lit "my resume")))
         (demo_world [demo_doc (Js.lit "demo") None])) =
    respond 200 (JsonLink (link_base CloudRedirect demo_cfg
                             (demo_request (Some (Js.lit "my resume")))
                             ++ Js.lit "/file/" ++ sanitize (Js.lit "my resume"))) /\
  fst (get_file CloudRedirect quiet (sanitize (Js.lit "my resume"))
         (snd (post_upload CloudRedirect demo_cfg quiet
                 (demo_request (Some (Js.lit "my resume")))
                 (demo_world [demo_doc (Js.lit "demo") None])))) =
    respond 302 (Redirect (snd (assigned quiet 0))).
Proof.
  apply (upload_then_get demo_cfg quiet quiet (demo_request (Some (Js.lit "my resume")))
           (demo_world [demo_doc (Js.lit "demo") None]) demo_part (Js.lit "my resume")).
  - reflexivity.
  - reflexivity.
  - discriminate.
  - reflexivity.
  - reflexivity.
  - reflexivity.
  - intros (d & Hin & Hid). simpl in Hin.
    destruct Hin as [<-|[]]. vm_compute in Hid. discriminate.
Defined.

(** ** Sanitization on examples *)

Example sanitize_spaces_and_punctuation :
  sanitize (Js.lit "  my  resume!.pdf ") = Js.lit "my-resumepdf".
Proof. reflexivity. Qed.

Example sanitize_only_punctuation : sanitize (Js.lit "!!!") = [].
Proof. reflexivity. Qed.

(** A no-break space, a line separator and an ideographic space are
    whitespace like any other. *)
Example sanitize_unicode_spaces :
  sanitize ([160] ++ Js.lit "a" ++ [8232; 12288] ++ Js.lit "b_c" ++ [65279])
    = Js.lit "a-b_c".
Proof. reflexivity. Qed.

Example runs_of_a_name :
  runs (Js.lit "my  cv") = [(false, Js.lit "my"); (true, Js.lit "  "); (false, Js.lit "cv")].
Proof. reflexivity. Qed.

(** ** Every outcome of the upload route *)

Lemma commit_others_app (others : list FileDoc) : forall docs,
  exists added, commit_others others docs = docs ++ added.
Proof.
  unfold commit_others. induction others as [|d others IH]; intros docs; simpl.
  - exists []. symmetry. apply app_nil_r.
  - unfold insert_unique at 2.
    destruct (existsb (has_shortId (shortId d)) docs); simpl; [apply IH|].
    destruct (IH (docs ++ [d])) as [added ->]. exists (d :: added).
    rewrite <- app_assoc. reflexivity.
Qed.

(** The [if (customName)] block: it leaves the collection alone, touches no
    blob but the one of the file in hand, and either throws, or returns one
    of the two client errors, or hands over an identifier. *)
Lemma choose_shortId_cases rev o file name w :
  db (snd (choose_shortId rev o file name w)) = db w /\
  (forall k, k <> filename file ->
     blobs (snd (choose_shortId rev o file name w)) !! k = blobs w !! k) /\
  (cloud rev = false -> blobs (snd (choose_shortId rev o file name w)) = blobs w) /\
  match fst (choose_shortId rev o file name w) with
  | inl _ => True
  | inr (inl early) => early = invalid_name \/ early = name_taken
  | inr (inr id) =>
      blobs (snd (choose_shortId rev o file name w)) = blobs w /\
      (id = nanoid o 8 \/ exists n, name = Some n /\ id = sanitize n /\ id <> [])
  end.
Proof.
  unfold choose_shortId, bind, ret, findOne.
  destruct name as [[|c name]|]; cbn [Js.truthy fst snd];
    try solve [repeat split; auto].
  destruct (sanitize (c :: name)) as [|s0 s] eqn:Hs; cbn [Js.truthy negb fst snd];
    [repeat split; auto|].
  destruct (find_rejects o); cbn [fst snd db blobs emit]; [repeat split; auto|].
  destruct (List.find _ (db w)) as [d|]; cbn [fst snd db blobs emit].
  - destruct (cloud rev) eqn:Hcloud; cbn [fst snd db blobs emit]; [|repeat split; auto].
    unfold destroy. destruct (destroy_outcome o);
      cbn [fst snd db blobs emit with_blobs]; repeat split; auto; try discriminate.
    intros k Hk. apply lookup_delete_ne. congruence.
  - repeat split; auto. right. exists (c :: name). rewrite Hs.
    repeat split. discriminate.
Qed.

(** The save: the other requests' inserts land first, then this one is
    either appended or refused. *)
Lemma save_cases o d w :
  blobs (snd (save o d w)) = blobs w /\
  match fst (save o d w) with
  | inr _ => db (snd (save o d w)) = commit_others (concurrent o) (db w) ++ [d] /\
             ~ known (shortId d) (commit_others (concurrent o) (db w))
  | inl _ => db (snd (save o d w)) = commit_others (concurrent o) (db w)
  end.
Proof.
  unfold save. cbn [db emit with_db]. destruct (save_rejects o); [split; reflexivity|].
  unfold insert_unique.
  destruct (existsb _ (commit_others (concurrent o) (db w))) eqn:E;
    cbn [fst snd db blobs emit with_db]; repeat split.
  intros Hk. apply exists_known in Hk. congruence.
Qed.

(** The route callback on a non-empty [req.files], outcome by outcome. *)
Lemma upload_handler_cases rev cfg o req file files w :
  (forall k, k <> filename file ->
     blobs (snd (upload_handler rev cfg o req (file :: files) w)) !! k = blobs w !! k) /\
  (cloud rev = false ->
     blobs (snd (upload_handler rev cfg o req (file :: files) w)) = blobs w) /\
  ((exists id,
      fst (upload_handler rev cfg o req (file :: files) w)
        = respond 200 (JsonLink (shareableLink rev cfg req id)) /\
      db (snd (upload_handler rev cfg o req (file :: files) w))
        = commit_others (concurrent o) (db w) ++ [new_File rev o id file] /\
      ~ known id (commit_others (concurrent o) (db w)) /\
      blobs (snd (upload_handler rev cfg o req (file :: files) w)) = blobs w /\
      (id = nanoid o 8 \/
       exists n, customName req = Some n /\ id = sanitize n /\ id <> []))
   \/
   ((fst (upload_handler rev cfg o req (file :: files) w) = invalid_name \/
     fst (upload_handler rev cfg o req (file :: files) w) = name_taken \/
     fst (upload_handler rev cfg o req (file :: files) w) = upload_error rev) /\
    (db (snd (upload_handler rev cfg o req (file :: files) w)) = db w \/
     db (snd (upload_handler rev cfg o req (file :: files) w))
       = commit_others (concurrent o) (db w)))).
Proof.
  unfold upload_handler, try_catch, upload_try, bind, upload_catch.
  pose proof (choose_shortId_cases rev o file (customName req) w)
    as (Hdb & Hframe & Hlocal & Hres).
  destruct (choose_shortId rev o file (customName req) w) as [[e|[early|id]] w1];
    cbn [fst snd] in *.
  - cbn [fst snd db blobs emit].
    split; [exact Hframe|]. split; [exact Hlocal|]. right. auto.
  - unfold ret. cbn [fst snd].
    split; [exact Hframe|]. split; [exact Hlocal|]. right.
    split; [destruct Hres as [->| ->]; auto|auto].
  - destruct Hres as [Hblobs Hid].
    pose proof (save_cases o (new_File rev o id file) w1) as [Hsb Hsave].
    rewrite new_File_shortId in Hsave.
    destruct (save o (new_File rev o id file) w1) as [[e|[]] w2];
      unfold ret; cbn [fst snd db blobs emit] in *; rewrite Hdb in Hsave;
      rewrite Hsb, Hblobs.
    + split; [auto|]. split; [auto|]. right. auto.
    + rewrite new_File_shortId. split; [auto|]. split; [auto|].
      left. exists id. destruct Hsave as [Hd Hfresh]. auto.
Qed.

(** What the middleware does to the store: a blob lands under each assigned
    name and no other key changes. *)
Lemma upload_any_frame o ps : forall k0 w key,
  (forall i, (k0 <= i < k0 + length ps)%nat -> fst (assigned o i) <> key) ->
  blobs (snd (upload_any o k0 ps w)) !! key = blobs w !! key.
Proof.
  induction ps as [|p ps IH]; intros k0 w key Hkey; simpl; [reflexivity|].
  unfold handle_file. destruct (assigned o k0) as [name where_] eqn:Hk0.
  destruct (upload_any o (S k0) ps _) as [fs w2] eqn:E. cbn [snd].
  change w2 with (snd (fs, w2)). rewrite <- E. rewrite IH.
  - cbn [blobs emit with_blobs]. apply lookup_insert_ne.
    specialize (Hkey k0). rewrite Hk0 in Hkey. apply Hkey. simpl. lia.
  - intros i Hi. apply Hkey. simpl. lia.
Qed.

Lemma upload_any_names o ps : forall k0 w,
  List.map filename (fst (upload_any o k0 ps w))
    = List.map (fun i => fst (assigned o i)) (seq k0 (length ps)).
Proof.
  induction ps as [|p ps IH]; intros k0 w; simpl; [reflexivity|].
  unfold handle_file. destruct (assigned o k0) as [name where_] eqn:Hk0.
  destruct (upload_any o (S k0) ps _) as [fs w2] eqn:E. cbn [fst List.map filename].
  change fs with (fst (fs, w2)). rewrite <- E, IH. reflexivity.
Qed.

Lemma upload_any_head o p ps w :
  exists files,
    fst (upload_any o 0 (p :: ps) w) =
      {| originalname := part_originalname p; mimetype := part_mimetype p;
         path := snd (assigned o 0); filename := fst (assigned o 0) |} :: files.
Proof.
  simpl. unfold handle_file. destruct (assigned o 0) as [name where_].
  destruct (upload_any o 1 ps _) as [fs w2]. exists fs. reflexivity.
Qed.

Lemma upload_any_nil o k0 ps w : fst (upload_any o k0 ps w) = [] -> ps = [].
Proof.
  destruct ps as [|p ps]; [reflexivity|]. simpl.
  destruct (handle_file o k0 p w) as [f w1].
  destruct (upload_any o (S k0) ps w1) as [fs w2]. discriminate.
Qed.

(** The route callback, whatever [req.files] the middleware handed over,
    answers with one of five responses and nothing else: 400 "No file was
    uploaded." exactly when [req.files] is empty; otherwise one of the two
    other client errors, the generic server error of the revision, or 200
    with a link that ends in [/file/<shortId>], where the identifier is the
    generated one or the non-empty sanitized custom name.  So the status is
    always 200, 400, 409 or 500. *)
Theorem upload_handler_answers_one_of_five rev cfg o req files w :
  (fst (upload_handler rev cfg o req files w) = no_file <-> files = []) /\
  (fst (upload_handler rev cfg o req files w) = no_file \/
   fst (upload_handler rev cfg o req files w) = invalid_name \/
   fst (upload_handler rev cfg o req files w) = name_taken \/
   fst (upload_handler rev cfg o req files w) = upload_error rev \/
   exists id,
     fst (upload_handler rev cfg o req files w)
       = respond 200 (JsonLink (link_base rev cfg req ++ Js.lit "/file/" ++ id)) /\
     (id = nanoid o 8 \/
      exists name, customName req = Some name /\ id = sanitize name /\ id <> [])) /\
  (status (fst (upload_handler rev cfg o req files w)) = 200 \/
   status (fst (upload_handler rev cfg o req files w)) = 400 \/
   status (fst (upload_handler rev cfg o req files w)) = 409 \/
   status (fst (upload_handler rev cfg o req files w)) = 500).
Proof.
  destruct files as [|file files].
  - cbn. split; [tauto|]. auto.
  - destruct (upload_handler_cases rev cfg o req file files w)
      as (_ & _ & [(id & -> & _ & _ & _ & Hid)|[[-> |[-> | ->]] _]]).
    + split; [split; discriminate|]. split; [|left; reflexivity].
      do 4 right. exists id. split; [reflexivity|exact Hid].
    + split; [split; discriminate|]. split; [auto|]. right. left. reflexivity.
    + split; [split; discriminate|]. split; [auto|]. right. right. left. reflexivity.
    + split; [split; [destruct rev|]; discriminate|]. split; [auto|].
      do 3 right. destruct rev; reflexivity.
Qed.

(** A document is committed exactly when the answer is 200: a 200 carries
    the link of a document that this request appended to the collection,
    built from the first file of the form, under an identifier that was free
    at commit time; any other answer means that this request added nothing
    (the collection is as before, or as the other requests left it). *)
Theorem upload_200_iff_committed rev cfg o req w :
  (status (fst (post_upload rev cfg o req w)) = 200 ->
   exists file files id,
     fst (upload_any o 0 (parts req) w) = file :: files /\
     fst (post_upload rev cfg o req w)
       = respond 200 (JsonLink (shareableLink rev cfg req id)) /\
     db (snd (post_upload rev cfg o req w))
       = commit_others (concurrent o) (db w) ++ [new_File rev o id file] /\
     ~ known id (commit_others (concurrent o) (db w))) /\
  (status (fst (post_upload rev cfg o req w)) <> 200 ->
   db (snd (post_upload rev cfg o req w)) = db w \/
   db (snd (post_upload rev cfg o req w)) = commit_others (concurrent o) (db w)).
Proof.
  unfold post_upload.
  destruct (upload_any o 0 (parts req) w) as [files w1] eqn:Hany.
  pose proof (upload_any_effect o _ _ _ _ _ Hany) as (Hdb & _ & _).
  destruct files as [|file files].
  - simpl. split; [discriminate|]. auto.
  - destruct (upload_handler_cases rev cfg o req file files w1)
      as (_ & _ & [(id & Hresp & Hdocs & Hfresh & _)|[Hresp Hdocs]]);
      rewrite Hdb in *.
    + split; [|rewrite Hresp; intros Hne; exfalso; apply Hne; reflexivity].
      intros _. exists file, files, id. auto.
    + split; [|intros _; exact Hdocs].
      destruct Hresp as [-> |[-> | ->]]; try discriminate.
      destruct rev; discriminate.
Qed.

(** The collection is append-only under uploads: whatever the outcome, every
    document that was there is still there, unchanged and in the same
    place. *)
Theorem upload_is_append_only rev cfg o req w :
  exists added, db (snd (post_upload rev cfg o req w)) = db w ++ added.
Proof.
  destruct (commit_others_app (concurrent o) (db w)) as [others Hothers].
  unfold post_upload.
  destruct (upload_any o 0 (parts req) w) as [files w1] eqn:Hany.
  pose proof (upload_any_effect o _ _ _ _ _ Hany) as (Hdb & _ & _).
  destruct files as [|file files].
  - exists []. simpl. rewrite Hdb. symmetry. apply app_nil_r.
  - destruct (upload_handler_cases rev cfg o req file files w1)
      as (_ & _ & [(id & _ & -> & _)|[_ [-> | ->]]]); rewrite Hdb.
    + rewrite Hothers, <- app_assoc. eauto.
    + exists []. symmetry. apply app_nil_r.
    + eauto.
Qed.

(** An upload changes the store only under the names the storage engine
    assigned to this request's own file parts: every other blob is exactly
    as it was, whatever the outcome (cleanup included). *)
Theorem upload_touches_only_its_blobs rev cfg o req w key :
  (forall i, (i < length (parts req))%nat -> fst (assigned o i) <> key) ->
  blobs (snd (post_upload rev cfg o req w)) !! key = blobs w !! key.
Proof.
  intros Hkey. unfold post_upload.
  pose proof (upload_any_frame o (parts req) 0 w key) as Hframe.
  pose proof (upload_any_names o (parts req) 0 w) as Hnames.
  destruct (upload_any o 0 (parts req) w) as [[|file files] w1]; cbn [fst snd] in *.
  - apply Hframe. intros i Hi. apply Hkey. lia.
  - destruct (upload_handler_cases rev cfg o req file files w1) as (Hh & _).
    rewrite Hh; [apply Hframe; intros i Hi; apply Hkey; lia|].
    destruct (parts req) as [|p ps]; [discriminate|].
    simpl in Hnames. injection Hnames as Hname _. rewrite Hname.
    intros Heq. apply (Hkey 0%nat); [simpl; lia|]. congruence.
Qed.

Lemma upload_touches_only_its_blobs_witness :
  blobs (snd (post_upload CloudRedirect demo_cfg quiet
                (demo_request (Some (Js.lit "demo")))
                (with_blobs {[ Js.lit "instalink_uploads/old" := [1; 2; 3] ]}
                   (demo_world [demo_doc (Js.lit "demo") None]))))
    !! Js.lit "instalink_uploads/old"
  = blobs (with_blobs {[ Js.lit "instalink_uploads/old" := [1; 2; 3] ]}
             (demo_world [demo_doc (Js.lit "demo") None]))
    !! Js.lit "instalink_uploads/old".
Proof.
  apply (upload_touches_only_its_blobs CloudRedirect demo_cfg quiet
           (demo_request (Some (Js.lit "demo")))).
  intros i Hi. simpl in Hi. assert (i = 0%nat) as -> by lia.
  vm_compute. discriminate.
Defined.

Lemma upload_any_keeps o ps : forall k0 w key,
  is_Some (blobs w !! key) -> is_Some (blobs (snd (upload_any o k0 ps w)) !! key).
Proof.
  induction ps as [|p ps IH]; intros k0 w key Hkey; simpl; [exact Hkey|].
  unfold handle_file. destruct (assigned o k0) as [name where_].
  destruct (upload_any o (S k0) ps _) as [fs w2] eqn:E. cbn [snd].
  change w2 with (snd (fs, w2)). rewrite <- E. apply IH.
  cbn [blobs emit with_blobs]. rewrite lookup_insert_is_Some.
  destruct (decide (name = key)); auto.
Qed.

(** Every identifier the route commits is a usable path segment: under the
    contract of nanoid, a 200 carries a link whose identifier is not empty
    and holds only characters of [A-Za-z0-9_-], and that identifier is the
    [shortId] of the document just appended. *)
Theorem committed_shortId_is_url_safe rev cfg o req w :
  nanoid_contract (nanoid o) ->
  status (fst (post_upload rev cfg o req w)) = 200 ->
  exists id docs doc,
    fst (post_upload rev cfg o req w)
      = respond 200 (JsonLink (shareableLink rev cfg req id)) /\
    db (snd (post_upload rev cfg o req w)) = docs ++ [doc] /\
    shortId doc = id /\ id <> [] /\ url_safe id.
Proof.
  intros Hgen. unfold post_upload.
  destruct (upload_any o 0 (parts req) w) as [[|file files] w1]; [discriminate|].
  destruct (upload_handler_cases rev cfg o req file files w1)
    as (_ & _ & [(id & Hresp & Hdocs & _ & _ & Hid)|[Hresp _]]).
  - intros _. exists id. eexists. exists (new_File rev o id file).
    split; [exact Hresp|]. split; [exact Hdocs|]. split; [apply new_File_shortId|].
    destruct Hid as [-> |(n & _ & -> & Hne)].
    + destruct (Hgen 8%nat) as [Hlen Hsafe]. split; [|exact Hsafe].
      intros Hnil. rewrite Hnil in Hlen. discriminate.
    + split; [exact Hne|apply sanitize_safe].
  - destruct Hresp as [-> |[-> | ->]]; try discriminate. destruct rev; discriminate.
Qed.

Lemma committed_shortId_is_url_safe_witness :
  exists id docs doc,
    fst (post_upload LocalDisk demo_cfg quiet (demo_request (Some (Js.lit "My CV (final)")))
           (demo_world []))
      = respond 200 (JsonLink (shareableLink LocalDisk demo_cfg
                                 (demo_request (Some (Js.lit "My CV (final)"))) id)) /\
    db (snd (post_upload LocalDisk demo_cfg quiet
               (demo_request (Some (Js.lit "My CV (final)"))) (demo_world [])))
      = docs ++ [doc] /\
    shortId doc = id /\ id <> [] /\ url_safe id.
Proof.
  apply (committed_shortId_is_url_safe LocalDisk demo_cfg quiet
           (demo_request (Some (Js.lit "My CV (final)"))) (demo_world [])).
  - apply alphabet_gen_contract.
  - reflexivity.
Defined.

(** No document without its blob: whenever the answer is 200, the appended
    document carries the original name and the path of the first stored
    file (and, with Cloudinary, its public id), and the store holds a blob
    under that file's name; for a single-file form the blob is the uploaded
    bytes. *)
Theorem committed_record_has_its_blob rev cfg o req w :
  status (fst (post_upload rev cfg o req w)) = 200 ->
  exists docs doc file files,
    fst (upload_any o 0 (parts req) w) = file :: files /\
    db (snd (post_upload rev cfg o req w)) = docs ++ [doc] /\
    originalName doc = originalname file /\
    fileUrl doc = path file /\
    (cloud rev = true -> cloudinaryId doc = Some (filename file)) /\
    is_Some (blobs (snd (post_upload rev cfg o req w)) !! filename file) /\
    (forall p, parts req = [p] ->
       blobs (snd (post_upload rev cfg o req w)) !! filename file = Some (part_bytes p)).
Proof.
  unfold post_upload. destruct (parts req) as [|p ps]; [simpl; discriminate|].
  simpl upload_any. unfold handle_file. destruct (assigned o 0) as [name where_].
  set (w0 := emit (BlobWrite name) (with_blobs (<[name := part_bytes p]> (blobs w)) w)).
  pose proof (upload_any_keeps o ps 1 w0 name) as Hkeep.
  destruct (upload_any o 1 ps w0) as [fs w2] eqn:E. cbn [fst snd] in *.
  set (file := {| originalname := part_originalname p; mimetype := part_mimetype p;
                  path := where_; filename := name |}).
  destruct (upload_handler_cases rev cfg o req file fs w2)
    as (_ & _ & [(id & Hresp & Hdocs & _ & Hblobs & _)|[Hresp _]]).
  - intros _. eexists. exists (new_File rev o id file), file, fs.
    split; [reflexivity|]. split; [exact Hdocs|].
    split; [destruct rev; reflexivity|]. split; [destruct rev; reflexivity|].
    split; [destruct rev; (discriminate || reflexivity)|].
    rewrite Hblobs. cbn [filename file]. split.
    + apply Hkeep. unfold w0. cbn [blobs emit with_blobs].
      rewrite lookup_insert_eq. eauto.
    + intros p' Heq. injection Heq as Hp Hps. subst p' ps.
      simpl in E. injection E as _ Hw. rewrite <- Hw.
      unfold w0. cbn [blobs emit with_blobs]. apply lookup_insert_eq.
  - destruct Hresp as [-> |[-> | ->]]; try discriminate. destruct rev; discriminate.
Qed.

Lemma committed_record_has_its_blob_witness :
  exists docs doc file files,
    fst (upload_any quiet 0 (parts (demo_request_two_files None)) (demo_world []))
      = file :: files /\
    db (snd (post_upload CloudProxy demo_cfg quiet (demo_request_two_files None)
               (demo_world []))) = docs ++ [doc] /\
    originalName doc = originalname file /\
    fileUrl doc = path file /\
    (cloud CloudProxy = true -> cloudinaryId doc = Some (filename file)) /\
    is_Some (blobs (snd (post_upload CloudProxy demo_cfg quiet
                           (demo_request_two_files None) (demo_world [])))
               !! filename file) /\
    (forall p, parts (demo_request_two_files None) = [p] ->
       blobs (snd (post_upload CloudProxy demo_cfg quiet
                     (demo_request_two_files None) (demo_world [])))
         !! filename file = Some (part_bytes p)).
Proof.
  apply (committed_record_has_its_blob CloudProxy demo_cfg quiet
           (demo_request_two_files None) (demo_world [])).
  reflexivity.
Defined.

(** ** Only the first file counts *)

Lemma choose_shortId_db_only rev o file name w w' :
  db w = db w' ->
  fst (choose_shortId rev o file name w) = fst (choose_shortId rev o file name w').
Proof.
  intros Hdb. unfold choose_shortId, bind, ret, findOne.
  destruct name as [[|c name]|]; cbn [Js.truthy fst snd]; try reflexivity.
  destruct (sanitize (c :: name)) as [|s0 s]; cbn [Js.truthy negb fst snd];
    [reflexivity|].
  destruct (find_rejects o); [reflexivity|]. cbn [db emit]. rewrite <- Hdb.
  destruct (List.find _ (db w)); [|reflexivity].
  destruct (cloud rev); [|reflexivity].
  unfold destroy. destruct (destroy_outcome o); reflexivity.
Qed.

Lemma save_db_only o d w w' :
  db w = db w' ->
  fst (save o d w) = fst (save o d w') /\ db (snd (save o d w)) = db (snd (save o d w')).
Proof.
  intros Hdb. unfold save. cbn [db emit with_db]. rewrite <- Hdb.
  destruct (save_rejects o); [split; reflexivity|].
  destruct (insert_unique d _); split; reflexivity.
Qed.

Lemma upload_handler_db_only rev cfg o req req' file fs fs' w w' :
  customName req = customName req' ->
  protocol req = protocol req' ->
  host req = host req' ->
  db w = db w' ->
  fst (upload_handler rev cfg o req (file :: fs) w)
    = fst (upload_handler rev cfg o req' (file :: fs') w') /\
  db (snd (upload_handler rev cfg o req (file :: fs) w))
    = db (snd (upload_handler rev cfg o req' (file :: fs') w')).
Proof.
  intros Hname Hproto Hhost Hdb.
  unfold upload_handler, try_catch, upload_try, bind, upload_catch.
  pose proof (choose_shortId_db_only rev o file (customName req) w w' Hdb) as Hfst.
  pose proof (choose_shortId_cases rev o file (customName req) w) as (Hd1 & _).
  pose proof (choose_shortId_cases rev o file (customName req) w') as (Hd2 & _).
  rewrite <- Hname.
  destruct (choose_shortId rev o file (customName req) w) as [r1 w1].
  destruct (choose_shortId rev o file (customName req) w') as [r2 w2].
  cbn [fst snd] in *. subst r2.
  assert (Hdb12 : db w1 = db w2) by congruence.
  destruct r1 as [e|[early|id]]; cbn [fst snd db emit ret]; unfold ret; auto.
  destruct (save_db_only o (new_File rev o id file) w1 w2 Hdb12) as [Hs1 Hs2].
  destruct (save o (new_File rev o id file) w1) as [s1 w3].
  destruct (save o (new_File rev o id file) w2) as [s2 w4].
  cbn [fst snd] in *. subst s2.
  destruct s1 as [e|[]]; cbn [fst snd db emit]; [auto|].
  split; [|exact Hs2]. unfold shareableLink, link_base. rewrite Hproto, Hhost.
  reflexivity.
Qed.

(** Further files of the form change nothing the client or the registry can
    see: the answer and the resulting collection are those of the same
    request sent with its first file alone.  (The further files are stored
    all the same, which the store shows.) *)
Theorem upload_ignores_later_files rev cfg o p ps name proto h w :
  fst (post_upload rev cfg o
         {| parts := p :: ps; customName := name; protocol := proto; host := h |} w)
    = fst (post_upload rev cfg o
             {| parts := [p]; customName := name; protocol := proto; host := h |} w) /\
  db (snd (post_upload rev cfg o
             {| parts := p :: ps; customName := name; protocol := proto; host := h |} w))
    = db (snd (post_upload rev cfg o
                 {| parts := [p]; customName := name; protocol := proto; host := h |} w)).
Proof.
  unfold post_upload. cbn [parts].
  rewrite upload_any_single.
  destruct (upload_any_head o p ps w) as [files Hhead].
  destruct (upload_any o 0 (p :: ps) w) as [fs w1] eqn:Hany.
  pose proof (upload_any_effect o _ _ _ _ _ Hany) as (Hdb & _ & _).
  cbn [fst] in Hhead. subst fs.
  apply upload_handler_db_only; try reflexivity.
  rewrite Hdb. reflexivity.
Qed.

(** ** Every outcome of the retrieval route *)

(** A GET never writes: whatever the revision, the identifier and the
    outcome of the calls it makes, the collection and the blob store are
    left exactly as they were. *)
Theorem get_is_read_only rev o id w :
  db (snd (get_file rev o id w)) = db w /\
  blobs (snd (get_file rev o id w)) = blobs w.
Proof.
  unfold get_file, get_try, r_bind, await, findOne, get_catch.
  destruct (find_rejects o); [destruct rev; split; reflexivity|].
  cbn [db emit]. destruct (List.find _ (db w)) as [file|];
    [|destruct rev; split; reflexivity].
  unfold serve, r_bind, await, axios_get, setHeader, send, sendFile. destruct rev.
  - destruct (mimeType file) as [type|]; [destruct (valid_header type)|];
      split; reflexivity.
  - split; reflexivity.
  - split; reflexivity.
  - destruct (fetch_outcome o); [|split; reflexivity].
    destruct (valid_header (Js.or_else (mimeType file) octet_stream));
      [destruct (valid_header (content_disposition (originalName file)))|];
      split; reflexivity.
Qed.

(** The statuses a GET can end in, in the three revisions that keep the
    files on Cloudinary: 302, 404 or 500 in the two redirect revisions; 200,
    404, 500 or 504 when the file is proxied, and 200 there only when the
    fetch of the file succeeded.  Neither redirect revision ever answers 200
    or 504.  (The local-disk revision is left out: there the status of a
    found file is the one [res.sendFile] ends with.) *)
Theorem get_statuses o id w :
  (status (fst (get_file CloudRedirect o id w)) = 302 \/
   status (fst (get_file CloudRedirect o id w)) = 404 \/
   status (fst (get_file CloudRedirect o id w)) = 500) /\
  (status (fst (get_file CloudAttachment o id w)) = 302 \/
   status (fst (get_file CloudAttachment o id w)) = 404 \/
   status (fst (get_file CloudAttachment o id w)) = 500) /\
  ((status (fst (get_file CloudProxy o id w)) = 200 /\
    exists bytes, fetch_outcome o = FetchStream bytes) \/
   status (fst (get_file CloudProxy o id w)) = 404 \/
   status (fst (get_file CloudProxy o id w)) = 500 \/
   status (fst (get_file CloudProxy o id w)) = 504).
Proof.
  unfold get_file, get_try, r_bind, await, findOne, get_catch.
  destruct (find_rejects o); [cbn; auto 6|].
  cbn [db emit]. destruct (List.find _ (db w)) as [file|]; [|cbn; auto 6].
  split; [cbn; auto|]. split; [cbn; auto|].
  unfold serve, r_bind, await, axios_get, setHeader, send, sendFile.
  destruct (fetch_outcome o) as [bytes|code st].
  - destruct (valid_header (Js.or_else (mimeType file) octet_stream));
      [destruct (valid_header (content_disposition (originalName file)))|].
    + left. split; [reflexivity|]. exists bytes. reflexivity.
    + right. right. left. reflexivity.
    + right. right. left. reflexivity.
  - right. cbn [fst snd error_code error_response_status].
    destruct code as [c|]; [destruct (Js.eqb c ECONNABORTED)|];
      try (destruct st as [n|]; [destruct (n =? 404)|]); cbn; auto.
Qed.

(** A lookup that rejects is answered 500 in every revision, with the page
    (or, where the global error handler answers, the JSON error) of that
    revision; the route logs the error and makes no other call, so no blob
    is read or fetched. *)
Theorem get_lookup_fault_is_500 rev o id w :
  find_rejects o = true ->
  status (fst (get_file rev o id w)) = 500 /\
  body (fst (get_file rev o id w)) =
    match rev with
    | LocalDisk | CloudRedirect => Html "<h1>Server error</h1>"
    | CloudAttachment => JsonError "An unexpected server error occurred."
    | CloudProxy => Html "<h1>Server error while retrieving file</h1>"
    end /\
  List.filter is_blob_access (events_since w (snd (get_file rev o id w))) = [] /\
  List.filter is_registry_call (events_since w (snd (get_file rev o id w))) = [FindOne id].
Proof.
  intros Hfind. unfold get_file, get_try, r_bind, await, findOne, get_catch.
  rewrite Hfind. unfold events_since.
  destruct rev; cbn [fst snd status body respond trace emit error_code
                       error_response_status];
    rewrite <- app_assoc, skipn_app_exact; repeat split; reflexivity.
Qed.

Lemma get_lookup_fault_is_500_witness :
  status (fst (get_file CloudAttachment db_down (Js.lit "demo")
                 (demo_world [demo_doc (Js.lit "demo") None]))) = 500 /\
  body (fst (get_file CloudAttachment db_down (Js.lit "demo")
               (demo_world [demo_doc (Js.lit "demo") None]))) =
    JsonError "An unexpected server error occurred." /\
  List.filter is_blob_access
    (events_since (demo_world [demo_doc (Js.lit "demo") None])
       (snd (get_file CloudAttachment db_down (Js.lit "demo")
               (demo_world [demo_doc (Js.lit "demo") None])))) = [] /\
  List.filter is_registry_call
    (events_since (demo_world [demo_doc (Js.lit "demo") None])
       (snd (get_file CloudAttachment db_down (Js.lit "demo")
               (demo_world [demo_doc (Js.lit "demo") None])))) = [FindOne (Js.lit "demo")].
Proof.
  apply (get_lookup_fault_is_500 CloudAttachment db_down (Js.lit "demo")
           (demo_world [demo_doc (Js.lit "demo") None])).
  reflexivity.
Defined.

(** In the two redirect revisions a found document is answered with a 302:
    to its stored [fileUrl] in backend.js, and to the URL that
    [cloudinary.url] builds from its [cloudinaryId] and [resourceType] (with
    the attachment flag) in the other; the lookup is the only call, the
    server never touches the bytes. *)
Theorem get_found_redirects o w file :
  find_rejects o = false ->
  registry_ok (db w) ->
  In file (db w) ->
  get_file CloudRedirect o (shortId file) w
    = (respond 302 (Redirect (fileUrl file)), emit (FindOne (shortId file)) w) /\
  get_file CloudAttachment o (shortId file) w
    = (respond 302 (Redirect (cloudinary_url o (cloudinaryId file) (resourceType file))),
       emit (FindOne (shortId file)) w) /\
  events_since w (emit (FindOne (shortId file)) w) = [FindOne (shortId file)].
Proof.
  intros Hfind Hok Hin.
  unfold get_file, get_try, r_bind, await, findOne. rewrite Hfind.
  cbn [db emit]. rewrite (find_in (db w) file Hok Hin).
  repeat split. apply skipn_app_exact.
Qed.

Lemma get_found_redirects_witness :
  get_file CloudRedirect quiet (shortId (demo_doc (Js.lit "cv") None))
    (demo_world [demo_doc (Js.lit "cv") None])
    = (respond 302 (Redirect (fileUrl (demo_doc (Js.lit "cv") None))),
       emit (FindOne (shortId (demo_doc (Js.lit "cv") None)))
         (demo_world [demo_doc (Js.lit "cv") None])) /\
  get_file CloudAttachment quiet (shortId (demo_doc (Js.lit "cv") None))
    (demo_world [demo_doc (Js.lit "cv") None])
    = (respond 302 (Redirect (cloudinary_url quiet
                                (cloudinaryId (demo_doc (Js.lit "cv") None))
                                (resourceType (demo_doc (Js.lit "cv") None)))),
       emit (FindOne (shortId (demo_doc (Js.lit "cv") None)))
         (demo_world [demo_doc (Js.lit "cv") None])) /\
  events_since (demo_world [demo_doc (Js.lit "cv") None])
    (emit (FindOne (shortId (demo_doc (Js.lit "cv") None)))
       (demo_world [demo_doc (Js.lit "cv") None]))
    = [FindOne (shortId (demo_doc (Js.lit "cv") None))].
Proof.
  apply (get_found_redirects quiet (demo_world [demo_doc (Js.lit "cv") None])
           (demo_doc (Js.lit "cv") None)).
  - reflexivity.
  - apply demo_registry_ok. discriminate.
  - left. reflexivity.
Defined.

(** ** Upload, then retrieve *)



(** ** More on sanitization *)

(** The names that sanitization leaves alone are exactly those made of
    characters of [A-Za-z0-9_-]: such a custom name becomes the identifier
    as typed, and any other name is changed. *)
Theorem sanitize_fixes_exactly_url_safe (customName : jsstring) :
  sanitize customName = customName <-> url_safe customName.
Proof.
  split.
  - intros H. rewrite <- H. apply sanitize_safe.
  - apply sanitize_fixed.
Qed.

Lemma drop_while_le p (s : jsstring) : (length (Js.drop_while p s) <= length s)%nat.
Proof.
  induction s as [|c t IH]; simpl; [lia|]. destruct (p c); simpl; lia.
Qed.

Lemma trim_le (s : jsstring) : (length (Js.trim s) <= length s)%nat.
Proof.
  unfold Js.trim, Js.trim_end, Js.trim_start. rewrite length_rev.
  etransitivity; [apply drop_while_le|]. rewrite length_rev. apply drop_while_le.
Qed.

Lemma replace_plus_le cls c0 (s : jsstring) :
  (length (Js.replace_plus cls [c0] s) <= length s)%nat.
Proof.
  remember (length s) as n eqn:Hn. revert s Hn.
  induction n as [n IH] using lt_wf_ind. intros [|c t] Hn;
    [simp replace_plus; simpl; lia|].
  rewrite replace_plus_cons. subst n. pose proof (drop_while_le cls t) as Hd.
  destruct (cls c); simpl.
  - assert (Hlt : (length (Js.drop_while cls t) < S (length t))%nat) by lia.
    pose proof (IH _ Hlt _ eq_refl). lia.
  - assert (Hlt : (length t < S (length t))%nat) by lia.
    pose proof (IH _ Hlt _ eq_refl). lia.
Qed.

(** Sanitization never makes a name longer. *)
Theorem sanitize_never_longer (customName : jsstring) :
  (length (sanitize customName) <= length customName)%nat.
Proof.
  unfold sanitize. rewrite strip_is_filter. unfold strip_outside.
  etransitivity; [apply List.filter_length_le|].
  etransitivity; [apply replace_plus_le|apply trim_le].
Qed.

Lemma drop_while_app_all p (pre x : jsstring) :
  Forall (fun c => p c = true) pre -> Js.drop_while p (pre ++ x) = Js.drop_while p x.
Proof.
  induction 1 as [|c pre Hc Hpre IH]; simpl; [reflexivity|]. rewrite Hc. exact IH.
Qed.

Lemma drop_while_app p (s t : jsstring) :
  Js.drop_while p (s ++ t) =
  match Js.drop_while p s with
  | [] => Js.drop_while p t
  | c :: rest => (c :: rest) ++ t
  end.
Proof.
  induction s as [|c s IH]; simpl; [destruct (Js.drop_while p t); reflexivity|].
  destruct (p c); [exact IH|reflexivity].
Qed.

Lemma trim_end_app_all (x post : jsstring) :
  Forall (fun c => Js.is_space c = true) post -> Js.trim_end (x ++ post) = Js.trim_end x.
Proof.
  intros Hpost. unfold Js.trim_end. rewrite rev_app_distr.
  rewrite drop_while_app_all by (apply Forall_rev; exact Hpost). reflexivity.
Qed.

Lemma trim_surrounded (pre s post : jsstring) :
  Forall (fun c => Js.is_space c = true) pre ->
  Forall (fun c => Js.is_space c = true) post ->
  Js.trim (pre ++ s ++ post) = Js.trim s.
Proof.
  intros Hpre Hpost. unfold Js.trim, Js.trim_start.
  rewrite (drop_while_app_all _ pre _ Hpre), drop_while_app.
  destruct (Js.drop_while Js.is_space s) as [|c rest].
  - rewrite <- (app_nil_r post), (drop_while_app_all _ post [] Hpost). reflexivity.
  - apply trim_end_app_all, Hpost.
Qed.

(** Whitespace typed around a custom name does not matter: the identifier
    is the same with or without it. *)
Theorem sanitize_ignores_surrounding_space (pre customName post : jsstring) :
  Forall (fun c => Js.is_space c = true) pre ->
  Forall (fun c => Js.is_space c = true) post ->
  sanitize (pre ++ customName ++ post) = sanitize customName.
Proof.
  intros Hpre Hpost. unfold sanitize. rewrite trim_surrounded by assumption.
  reflexivity.
Qed.

Lemma sanitize_ignores_surrounding_space_witness :
  sanitize ([32; 9; 160] ++ Js.lit "my resume" ++ [10; 12288])
    = sanitize (Js.lit "my resume").
Proof.
  apply (sanitize_ignores_surrounding_space [32; 9; 160] (Js.lit "my resume") [10; 12288]);
    repeat constructor.
Defined.

(** ** The resource type read off the Cloudinary URL *)

Lemma starts_with_spec (needle s : jsstring) :
  Js.starts_with needle s = true <-> exists post, s = needle ++ post.
Proof.
  revert s. induction needle as [|a needle IH]; intros s; simpl.
  - split; [intros _; exists s; reflexivity|reflexivity].
  - destruct s as [|b s].
    + split; [discriminate|intros [post Hpost]; discriminate].
    + rewrite andb_true_iff, N.eqb_eq, IH. split.
      * intros [-> [post ->]]. exists post. reflexivity.
      * intros [post [= -> ->]]. split; [reflexivity|exists post; reflexivity].
Qed.

Lemma includes_spec (s needle : jsstring) :
  Js.includes s needle = true <-> exists pre post, s = pre ++ needle ++ post.
Proof.
  induction s as [|c s IH].
  - simpl. rewrite orb_false_r, starts_with_spec. split.
    + intros [post Hpost]. exists [], post. exact Hpost.
    + intros (pre & post & Heq). destruct pre; [|discriminate]. exists post. exact Heq.
  - cbn [Js.includes]. rewrite orb_true_iff, starts_with_spec, IH. split.
    + intros [[post Hpost]|(pre & post & Hs)].
      * exists [], post. exact Hpost.
      * exists (c :: pre), post. rewrite Hs. reflexivity.
    + intros (pre & post & Heq). destruct pre as [|c' pre].
      * left. exists post. exact Heq.
      * right. injection Heq as _ Hs. exists pre, post. exact Hs.
Qed.

(** In the revision that stores a resource type, the type of a new document
    follows the URL Cloudinary returned: raw when the URL contains
    [/raw/upload] anywhere, otherwise video when it contains
    [/video/upload], otherwise image; it is never anything else, and the
    document stores no MIME type. *)
Theorem resource_type_follows_url o id file :
  ((exists pre post, path file = pre ++ Js.lit "/raw/upload" ++ post) ->
   resourceType (new_File CloudAttachment o id file) = Some (Js.lit "raw")) /\
  (~ (exists pre post, path file = pre ++ Js.lit "/raw/upload" ++ post) ->
   (exists pre post, path file = pre ++ Js.lit "/video/upload" ++ post) ->
   resourceType (new_File CloudAttachment o id file) = Some (Js.lit "video")) /\
  (~ (exists pre post, path file = pre ++ Js.lit "/raw/upload" ++ post) ->
   ~ (exists pre post, path file = pre ++ Js.lit "/video/upload" ++ post) ->
   resourceType (new_File CloudAttachment o id file) = Some (Js.lit "image")) /\
  (resourceType (new_File CloudAttachment o id file) = Some (Js.lit "raw") \/
   resourceType (new_File CloudAttachment o id file) = Some (Js.lit "video") \/
   resourceType (new_File CloudAttachment o id file) = Some (Js.lit "image")) /\
  mimeType (new_File CloudAttachment o id file) = None.
Proof.
  cbn [new_File resourceType mimeType].
  pose proof (includes_spec (path file) (Js.lit "/raw/upload")) as Hraw.
  pose proof (includes_spec (path file) (Js.lit "/video/upload")) as Hvideo.
  destruct (Js.includes (path file) (Js.lit "/raw/upload"));
    destruct (Js.includes (path file) (Js.lit "/video/upload"));
    (split; [|split; [|split; [|split; [auto|reflexivity]]]]).
  all: try (intros H; first [reflexivity | apply Hraw in H; discriminate]).
  all: try (intros Hn H;
            first [reflexivity
                  | exfalso; apply Hn, Hraw; reflexivity
                  | exfalso; apply H, Hvideo; reflexivity
                  | apply Hvideo in H; discriminate]).
Qed.

(** ** A name is claimed once *)

Lemma choose_shortId_custom rev o file c n w :
  match fst (choose_shortId rev o file (Some (c :: n)) w) with
  | inr (inr id) => id = sanitize (c :: n) /\ id <> []
  | _ => True
  end.
Proof.
  unfold choose_shortId, bind, ret, findOne. cbn [Js.truthy].
  destruct (sanitize (c :: n)) as [|s0 s]; cbn [Js.truthy negb fst]; [exact I|].
  destruct (find_rejects o); cbn [fst]; [exact I|].
  destruct (List.find _ _); cbn [fst]; [|split; [reflexivity|discriminate]].
  destruct (cloud rev); [|exact I].
  unfold destroy. destruct (destroy_outcome o); exact I.
Qed.

Lemma taken_name_answer rev cfg o req file files name w :
  customName req = Some name ->
  sanitize name <> [] ->
  find_rejects o = false ->
  known (sanitize name) (db w) ->
  destroy_outcome o <> DestroyRejects ->
  fst (upload_handler rev cfg o req (file :: files) w) = name_taken /\
  db (snd (upload_handler rev cfg o req (file :: files) w)) = db w.
Proof.
  intros Hname Hne Hfind Hknown Hdestroy.
  destruct (find_known _ _ Hknown) as [d Hd].
  unfold upload_handler, try_catch, upload_try, choose_shortId, bind, findOne.
  rewrite Hname. destruct name as [|c name]; [exfalso; apply Hne; reflexivity|].
  destruct (sanitize (c :: name)) as [|s0 s] eqn:Hs; [contradiction|].
  rewrite Hfind. cbn [Js.truthy negb db emit]. rewrite Hd.
  destruct (cloud rev); [|split; reflexivity].
  unfold destroy. destruct (destroy_outcome o); try contradiction; split; reflexivity.
Qed.

(** A custom name can be claimed only once.  After an upload under a custom
    name was answered 200, any later upload whose custom name sanitizes to
    the same identifier (the same name, or one that differs in spacing or
    in stripped characters) is answered name-taken (409) and commits
    nothing, in every revision, as long as its lookup completes and its
    cleanup call does not reject. *)
Theorem second_claim_of_a_name_is_refused rev cfg o o2 req req2 w name name2 p2 ps2 :
  status (fst (post_upload rev cfg o req w)) = 200 ->
  customName req = Some name ->
  name <> [] ->
  customName req2 = Some name2 ->
  sanitize name2 = sanitize name ->
  parts req2 = p2 :: ps2 ->
  find_rejects o2 = false ->
  destroy_outcome o2 <> DestroyRejects ->
  fst (post_upload rev cfg o2 req2 (snd (post_upload rev cfg o req w))) = name_taken /\
  db (snd (post_upload rev cfg o2 req2 (snd (post_upload rev cfg o req w))))
    = db (snd (post_upload rev cfg o req w)).
Proof.
  intros H200 Hname Hne Hname2 Hsan Hparts2 Hfind2 Hdestroy.
  assert (Hfirst : known (sanitize name) (db (snd (post_upload rev cfg o req w))) /\
                   sanitize name <> []).
  { unfold post_upload in *.
    destruct (upload_any o 0 (parts req) w) as [[|file files] w1]; [discriminate|].
    destruct name as [|c n]; [contradiction|].
    unfold upload_handler, try_catch, upload_try, bind, upload_catch, ret in *.
    rewrite Hname in *.
    pose proof (choose_shortId_custom rev o file c n w1) as Hid.
    pose proof (choose_shortId_cases rev o file (Some (c :: n)) w1) as (_ & _ & _ & He).
    change (@Some (list N) (c :: n)) with (@Some jsstring (c :: n)) in Hid, He.
    revert H200 Hid He.
    destruct (choose_shortId rev o file (@Some jsstring (c :: n)) w1)
      as [[e|[early|id]] w2];
      cbn [fst snd]; intros H200 Hid He.
    - destruct rev; discriminate.
    - destruct He as [He|He]; rewrite He in H200; discriminate.
    - destruct Hid as [Hid Hid'].
      pose proof (save_cases o (new_File rev o id file) w2) as [_ Hsave].
      revert H200 Hsave.
      destruct (save o (new_File rev o id file) w2) as [[e|[]] w3];
        cbn [fst snd]; intros H200 Hsave; [destruct rev; discriminate|].
      destruct Hsave as [Hdocs _]. rewrite <- Hid. split; [|exact Hid'].
      rewrite Hdocs. exists (new_File rev o id file).
      split; [apply in_or_app; right; left; reflexivity|apply new_File_shortId]. }
  destruct Hfirst as [Hknown Hne'].
  unfold post_upload at 1 3.
  destruct (upload_any o2 0 (parts req2) (snd (post_upload rev cfg o req w)))
    as [files2 w2] eqn:Hany.
  pose proof (upload_any_effect o2 _ _ _ _ _ Hany) as (Hdb & _ & Hlen).
  destruct files2 as [|file2 files2]; [rewrite Hparts2 in Hlen; discriminate|].
  rewrite <- Hdb.
  apply taken_name_answer with (name := name2); try assumption.
  - rewrite Hsan. exact Hne'.
  - rewrite Hsan, Hdb. exact Hknown.
Qed.

Lemma second_claim_of_a_name_is_refused_witness :
  fst (post_upload LocalDisk demo_cfg quiet (demo_request (Some (Js.lit " My   resume! ")))
         (snd (post_upload LocalDisk demo_cfg quiet
                 (demo_request (Some (Js.lit "My resume"))) (demo_world []))))
    = name_taken /\
  db (snd (post_upload LocalDisk demo_cfg quiet
             (demo_request (Some (Js.lit " My   resume! ")))
             (snd (post_upload LocalDisk demo_cfg quiet
                     (demo_request (Some (Js.lit "My resume"))) (demo_world [])))))
    = db (snd (post_upload LocalDisk demo_cfg quiet
                 (demo_request (Some (Js.lit "My resume"))) (demo_world []))).
Proof.
  apply (second_claim_of_a_name_is_refused LocalDisk demo_cfg quiet quiet
           (demo_request (Some (Js.lit "My resume")))
           (demo_request (Some (Js.lit " My   resume! "))) (demo_world [])
           (Js.lit "My resume") (Js.lit " My   resume! ") demo_part []).
  - reflexivity.
  - reflexivity.
  - discriminate.
  - reflexivity.
  - reflexivity.
  - reflexivity.
  - reflexivity.
  - discriminate.
Defined.

(** ** The database is down *)

(** With a database that rejects every call, an upload that carries a file
    and no invalid name is answered 500 with the generic error of the
    revision: the last thing the route does is log the error in its [catch],
    this request commits nothing, and the blobs the middleware stored stay
    in the store. *)
Theorem upload_with_database_down rev cfg o req w p ps :
  parts req = p :: ps ->
  find_rejects o = true ->
  save_rejects o = true ->
  (forall name, customName req = Some name -> name <> [] -> sanitize name <> []) ->
  fst (post_upload rev cfg o req w) = upload_error rev /\
  status (upload_error rev) = 500 /\
  (db (snd (post_upload rev cfg o req w)) = db w \/
   db (snd (post_upload rev cfg o req w)) = commit_others (concurrent o) (db w)) /\
  blobs (snd (post_upload rev cfg o req w))
    = blobs (snd (upload_any o 0 (parts req) w)) /\
  List.last (trace (snd (post_upload rev cfg o req w))) (LogError "")
    = LogError (upload_log rev).
Proof.
  intros Hparts Hfind Hsave Hvalid.
  assert (H500 : status (upload_error rev) = 500) by (destruct rev; reflexivity).
  unfold post_upload.
  destruct (upload_any o 0 (parts req) w) as [files w1] eqn:Hany.
  pose proof (upload_any_effect o _ _ _ _ _ Hany) as (Hdb & _ & Hlen).
  destruct files as [|file files]; [rewrite Hparts in Hlen; discriminate|].
  cbn [snd]. rewrite <- Hdb.
  unfold upload_handler, try_catch, upload_try, choose_shortId, bind, ret, findOne,
    save, upload_catch.
  destruct (customName req) as [[|c name]|] eqn:Hname; cbn [Js.truthy].
  - rewrite Hsave. cbn [fst snd db blobs trace emit with_db].
    repeat split; auto using last_last.
  - assert (Hne : sanitize (c :: name) <> [])
      by (apply Hvalid; [reflexivity|discriminate]).
    destruct (sanitize (c :: name)) as [|s0 s]; [contradiction|].
    rewrite Hfind. cbn [Js.truthy negb fst snd db blobs trace emit with_db].
    repeat split; auto using last_last.
  - rewrite Hsave. cbn [fst snd db blobs trace emit with_db].
    repeat split; auto using last_last.
Qed.

Lemma upload_with_database_down_witness :
  fst (post_upload CloudRedirect demo_cfg db_down (demo_request (Some (Js.lit "cv")))
         (demo_world [])) = upload_error CloudRedirect /\
  status (upload_error CloudRedirect) = 500 /\
  (db (snd (post_upload CloudRedirect demo_cfg db_down (demo_request (Some (Js.lit "cv")))
              (demo_world []))) = db (demo_world []) \/
   db (snd (post_upload CloudRedirect demo_cfg db_down (demo_request (Some (Js.lit "cv")))
              (demo_world [])))
     = commit_others (concurrent db_down) (db (demo_world []))) /\
  blobs (snd (post_upload CloudRedirect demo_cfg db_down (demo_request (Some (Js.lit "cv")))
                (demo_world [])))
    = blobs (snd (upload_any db_down 0 (parts (demo_request (Some (Js.lit "cv"))))
                    (demo_world []))) /\
  List.last (trace (snd (post_upload CloudRedirect demo_cfg db_down
                           (demo_request (Some (Js.lit "cv"))) (demo_world []))))
            (LogError "")
    = LogError (upload_log CloudRedirect).
Proof.
  apply (upload_with_database_down CloudRedirect demo_cfg db_down
           (demo_request (Some (Js.lit "cv"))) (demo_world []) demo_part []).
  - reflexivity.
  - reflexivity.
  - reflexivity.
  - intros name [= <-] _. discriminate.
Defined.
